(** * Verification model of reel's chunked-encoding engine

    Shallow embedding of the Go sources:
    - internal/chunk/chunk.go      (LoadScenes, Chunkify, GetResume, AppendDone, DoneSet)
    - internal/encode/permits.go   (CapWorkers, memoryPerWorker)
    - internal/encode/encode.go    (EncodeAll collector, calculateThreadsPerWorker)
    - internal/processing/crop.go  (DetectCrop decision, isEffectiveCrop,
                                    GetOutputDimensions)

    Go strings are byte sequences; they are modelled as [list ascii].
    Go [int] is modelled as [Z] and [uint64]/[uint32] as [N]; the values
    that flow through the modelled code (frame counts, chunk indices, file
    sizes) stay far below 2^63, so wrap-around is not written out except
    where the code converts explicitly ([uint32(...)]). *)

From Stdlib Require Import ZArith Lia Ascii String List Bool.
From Stdlib Require Import SpecFloat.
From stdpp Require Import base list gmap sorting.
Import ListNotations.
Open Scope Z_scope.

(** ** Go strings and the [strings] / [strconv] functions used *)
Module GoStr.

Definition bytes (s : string) : list ascii := list_ascii_of_string s.

Definition asc_eqb (a b : ascii) : bool := Ascii.eqb a b.

(** [unicode.IsSpace] restricted to ASCII bytes: '\t' '\n' '\v' '\f' '\r' ' '. *)
Definition is_space (a : ascii) : bool :=
  let n := nat_of_ascii a in
  (Nat.eqb n 32) || ((9 <=? n)%nat && (n <=? 13)%nat).

Definition is_digit (a : ascii) : bool :=
  let n := nat_of_ascii a in ((48 <=? n)%nat && (n <=? 57)%nat).

Definition digit_val (a : ascii) : N := N.of_nat (nat_of_ascii a - 48).

(** [strings.Split(s, sep)] for a one-byte separator, and the same
    split driven by a byte predicate. *)
Fixpoint split_by (p : ascii -> bool) (s : list ascii) : list (list ascii) :=
  match s with
  | [] => [[]]
  | a :: r =>
      let rest := split_by p r in
      if p a then [] :: rest
      else match rest with
           | w :: ws => (a :: w) :: ws
           | [] => [[a]]
           end
  end.

Definition split (sep : ascii) (s : list ascii) : list (list ascii) :=
  split_by (asc_eqb sep) s.

(** [strings.Fields]: the maximal runs of non-space bytes. *)
Definition fields (s : list ascii) : list (list ascii) :=
  filter (fun w => negb (bool_decide (w = []))) (split_by is_space s).

Fixpoint trim_left (s : list ascii) : list ascii :=
  match s with
  | a :: r => if is_space a then trim_left r else s
  | [] => []
  end.

(** [strings.TrimSpace]. *)
Definition trim_space (s : list ascii) : list ascii :=
  rev (trim_left (rev (trim_left s))).

Fixpoint strip_prefix (p s : list ascii) : option (list ascii) :=
  match p, s with
  | [], _ => Some s
  | a :: p', b :: s' => if asc_eqb a b then strip_prefix p' s' else None
  | _ :: _, [] => None
  end.

(** [strings.TrimPrefix]. *)
Definition trim_prefix (p s : list ascii) : list ascii :=
  match strip_prefix p s with Some r => r | None => s end.

(** Decimal digits read left to right into an accumulator. *)
Fixpoint digits_acc (acc : N) (s : list ascii) : option N :=
  match s with
  | [] => Some acc
  | a :: r => if is_digit a then digits_acc (acc * 10 + digit_val a)%N r else None
  end.

Definition digits_val (s : list ascii) : option N :=
  match s with [] => None | _ => digits_acc 0 s end.

(** [strconv.ParseUint(s, 10, bits)]: a non-empty run of decimal digits
    whose value is below 2^bits (base 10 admits no underscores and no
    sign); the value returned together with a range error is discarded
    by every caller, so an out-of-range input is [None]. *)
Definition parse_uint (s : list ascii) (bits : N) : option N :=
  match digits_val s with
  | Some n => if (n <? 2 ^ bits)%N then Some n else None
  | None => None
  end.

(** [strconv.Atoi] on a 64-bit platform: an optional sign followed by
    decimal digits whose value lies in [-2^63, 2^63).  The fast path for
    strings shorter than 19 bytes and the [ParseInt] slow path accept
    exactly these strings and return the same value. *)
Definition atoi (s : list ascii) : option Z :=
  match s with
  | a :: r =>
      if asc_eqb a "-"%char then
        match digits_val r with
        | Some n => if (n <=? 2 ^ 63)%N then Some (- Z.of_N n) else None
        | None => None
        end
      else
        let body := if asc_eqb a "+"%char then r else s in
        match digits_val body with
        | Some n => if (n <? 2 ^ 63)%N then Some (Z.of_N n) else None
        | None => None
        end
  | [] => None
  end.

Definition digit_char (d : N) : ascii := ascii_of_nat (48 + N.to_nat d).

(** Decimal rendering with at most [fuel] digits; 20 digits cover every
    Go [int64] and [uint64] value. *)
Fixpoint dec_aux (fuel : nat) (n : N) (tail : list ascii) : list ascii :=
  match fuel with
  | O => tail
  | S f =>
      if (n <? 10)%N then digit_char n :: tail
      else dec_aux f (n / 10)%N (digit_char (n mod 10)%N :: tail)
  end.

(** [fmt]'s [%d] verb for unsigned and signed integers. *)
Definition fmt_uint (n : N) : list ascii := dec_aux 20 n [].

Definition fmt_int (z : Z) : list ascii :=
  if z <? 0 then "-"%char :: fmt_uint (Z.to_N (- z)) else fmt_uint (Z.to_N z).

(** [bufio.Scanner] with [ScanLines]: tokens end at '\n'; one trailing
    '\r' is dropped; a final unterminated line is a token; data ending
    in '\n' yields no extra empty token. *)
Definition drop_cr (l : list ascii) : list ascii :=
  match rev l with
  | a :: r => if asc_eqb a "013"%char then rev r else l
  | [] => l
  end.

Definition scan_lines (s : list ascii) : list (list ascii) :=
  let ls := split "010"%char s in
  let ls' := match rev ls with [] :: r => rev r | _ => ls end in
  map drop_cr ls'.

End GoStr.

Import GoStr.

(** ** Package [chunk]: scenes, chunks and the resume log *)
Module ChunkPkg.


(** [Chunk{Idx, Start, End}] ([End] is a keyword here, hence [End']). *)
Record Chunk := mkChunk { Idx : Z; Start : Z; End' : Z }.

Definition Frames (c : Chunk) : Z := End' c - Start c.

Record ChunkComp := mkComp { CIdx : Z; CFrames : Z; CSize : N }.

(** *** LoadScenes *)








(** *** Resume log *)

(** One line of [GetResume]'s loop. *)
Definition parse_done_line (l : list ascii) : option ChunkComp :=
  let line := trim_space l in
  if bool_decide (line = []) then None
  else match fields line with
       | [p0; p1; p2] =>
           match atoi p0, atoi p1, parse_uint p2 64 with
           | Some i, Some f, Some sz => Some (mkComp i f sz)
           | _, _, _ => None
           end
       | _ => None
       end.

(** [GetResume]: the records of [done.txt] (an absent file reads as empty). *)
Definition GetResume (txt : list ascii) : list ChunkComp :=
  omap parse_done_line (scan_lines txt).

(** The line [AppendDone] writes: [fmt.Fprintf(file, "%d %d %d\n", ...)]. *)
Definition done_line (c : ChunkComp) : list ascii :=
  fmt_int (CIdx c) ++ [" "%char] ++ fmt_int (CFrames c) ++ [" "%char]
    ++ fmt_uint (CSize c) ++ ["010"%char].

(** [AppendDone]: the log file after the append. *)
Definition AppendDone (c : ChunkComp) (txt : list ascii) : list ascii :=
  txt ++ done_line c.

(** [DoneSet]: [done[c.Idx] = true] for every record. *)
Definition DoneSet (recs : list ChunkComp) : gmap Z bool :=
  foldl (fun m c => <[CIdx c := true]> m) ∅ recs.

Definition done_lookup (m : gmap Z bool) (i : Z) : bool :=
  match m !! i with Some b => b | None => false end.

Definition TotalEncodedSize (recs : list ChunkComp) : N :=
  foldl (fun t c => (t + CSize c)%N) 0%N recs.

Definition TotalEncodedFrames (recs : list ChunkComp) : Z :=
  foldl (fun t c => t + CFrames c) 0 recs.

End ChunkPkg.
Import ChunkPkg.

(** ** IEEE binary64 arithmetic (Go [float64]) *)
Module F64.

Definition t := spec_float.

(** [float64(n)] for an unsigned integer: round to nearest even. *)
Definition of_N (n : N) : t := binary_normalize 53 1024 (Z.of_N n) 0 false.

Definition mul (x y : t) : t := SFmul 53 1024 x y.
Definition div (x y : t) : t := SFdiv 53 1024 x y.
Definition ltb (x y : t) : bool := SFltb x y.

(** A decimal constant such as [0.7] denotes the float64 nearest to
    7/10, which is the correctly rounded quotient [7 / 10]. *)
Definition of_ratio (p q : N) : t := div (of_N p) (of_N q).

(** [uint64(f)] for a non-negative finite [f]: truncation toward zero. *)
Definition to_N_trunc (f : t) : N :=
  match f with
  | S754_finite false m e =>
      if 0 <=? e then N.shiftl (Npos m) (Z.to_N e) else N.shiftr (Npos m) (Z.to_N (- e))
  | _ => 0%N
  end.

End F64.

(** ** Package [encode]: admission policy, thread budget, the pipeline *)
Module Encode.

(** Modelled from the spec: the host readings of package [util]
    ([AvailableMemoryBytes], [PhysicalCores], [LogicalCores]), whose code
    is not part of the sources here.  The spec describes them as "a
      reading of available memory in bytes from the host" and the physical
    and logical core counts; [AvailableMemoryBytes] is 0 when the memory
    cannot be determined (the [available > 0] guard of [CapWorkers]). *)
Record Host := mkHost {
  AvailableMemoryBytes : N;
  PhysicalCores : Z;
  LogicalCores : Z
}.

Definition GiB : N := 2 ^ 30.
Definition MemPerWorker4K : N := 5 * 2 ^ 30.
Definition MemPerWorker1080p : N := 2 * 2 ^ 30.
Definition MemPerWorkerSD : N := 512 * 2 ^ 20.

Definition MemoryFraction : F64.t := F64.of_ratio 7 10.

Definition memoryPerWorker (width height : N) : N :=
  if (3840 <=? width)%N || (2160 <=? height)%N then MemPerWorker4K
  else if (1920 <=? width)%N || (1080 <=? height)%N then MemPerWorker1080p
  else MemPerWorkerSD.

(** [uint64(float64(available) * MemoryFraction)]. *)
Definition usable (available : N) : N :=
  F64.to_N_trunc (F64.mul (F64.of_N available) MemoryFraction).

(** [CapWorkers(requested, width, height)], reading the host's memory. *)
Definition CapWorkers (h : Host) (requested : Z) (width height : N) : Z * bool :=
  let memPerWorker := memoryPerWorker width height in
  let available := AvailableMemoryBytes h in
  let maxByMemory :=
    if (0 <? available)%N
    then Z.max (Z.of_N (usable available / memPerWorker)) 1
    else requested in
  if requested >? maxByMemory then (maxByMemory, true) else (requested, false).

Definition CalculatePermits (workers buffer : Z) : Z := Z.max (workers + buffer) 1.

(** [calculateThreadsPerWorker(workers, width)]; Go's [/] on [int]
    truncates toward zero ([Z.quot]). *)
Definition calculateThreadsPerWorker (h : Host) (workers : Z) (width : N) : Z :=
  if workers <=? 0 then 1
  else
    let physical := PhysicalCores h in
    let logical := LogicalCores h in
    let hasSMT := logical >? physical in
    let maxThreads :=
      if (3840 <=? width)%N then 16 else if (1920 <=? width)%N then 10 else 6 in
    let threadsPerWorker := Z.quot physical workers in
    let threadsPerWorker :=
      if hasSMT && (threadsPerWorker <? maxThreads) then threadsPerWorker + 1
      else threadsPerWorker in
    Z.max 1 (Z.min threadsPerWorker maxThreads).

End Encode.
Import Encode.

(** ** [EncodeAll]: resume filtering, workers and the result collector

    The workers and the collector run concurrently; what the claims need
    is the sequence of operations on the shared state, linearised as a
    trace of events:
    - [EvResult ch o]: the collector receives the result of chunk [ch]
      ([o] is what [encodeChunkStreaming], or a worker seeing a cancelled
      context, produced); results reach the collector in channel order;
    - [EvWorkerError e]: a worker failed to create its video source and
      called [setError] itself.
    The error slot is an [atomic.Pointer[error]] updated with
    [CompareAndSwap(nil, &err)]; the progress is guarded by [progressMu],
    which only the collector writes. *)
Module Pipeline.

Inductive GoError := mkError (msg : list ascii).

Record Progress := mkProgress {
  ChunksTotal : Z;
  ChunksComplete : Z;
  FramesTotal : Z;
  FramesComplete : Z;
  BytesComplete : N
}.

Record EncodeResult := mkResult {
  ChunkIdx : Z;
  RFrames : Z;
  RSize : N;
  RError : option GoError
}.

(** How the external decoder and encoder processes ended for one chunk:
    success with the size of the output file, or an error. *)
Inductive ChunkOutcome := Encoded (size : N) | Failed (e : GoError).

(** The [worker.EncodeResult] built for the chunk: on success
    [{ChunkIdx: ch.Idx, Frames: frameCount, Size: size}] with
    [frameCount = ch.Frames()], otherwise [{ChunkIdx: ch.Idx, Error: e}]. *)
Definition result_of (ch : Chunk) (o : ChunkOutcome) : EncodeResult :=
  match o with
  | Encoded sz => mkResult (Idx ch) (Frames ch) sz None
  | Failed e => mkResult (Idx ch) 0 0%N (Some e)
  end.

Inductive Event :=
| EvResult (ch : Chunk) (o : ChunkOutcome)
| EvWorkerError (e : GoError).

Record State := mkState {
  prog : Progress;
  slot : option GoError;
  done_txt : list ascii
}.

(** [setError]: [encodeErr.CompareAndSwap(nil, &err)]. *)
Definition setError (e : GoError) (s : option GoError) : option GoError :=
  match s with None => Some e | Some x => Some x end.

(** The collector's loop body for one result. *)
Definition collect (st : State) (r : EncodeResult) : State :=
  match RError r with
  | Some e => mkState (prog st) (setError e (slot st)) (done_txt st)
  | None =>
      let p := prog st in
      let p' := mkProgress (ChunksTotal p) (ChunksComplete p + 1)
                  (FramesTotal p) (FramesComplete p + RFrames r)
                  (BytesComplete p + RSize r)%N in
      mkState p' (slot st)
        (AppendDone (mkComp (ChunkIdx r) (RFrames r) (RSize r)) (done_txt st))
  end.

Definition step (st : State) (ev : Event) : State :=
  match ev with
  | EvResult ch o => collect st (result_of ch o)
  | EvWorkerError e => mkState (prog st) (setError e (slot st)) (done_txt st)
  end.

Definition run (st : State) (evs : list Event) : State := foldl step st evs.

(** The chunks not marked done: [!doneSet[ch.Idx]]. *)
Definition remaining (recs : list ChunkComp) (chunks : list Chunk) : list Chunk :=
  filter (fun ch => negb (done_lookup (DoneSet recs) (Idx ch))) chunks.

Definition sum_frames (chunks : list Chunk) : Z :=
  foldl (fun t ch => t + Frames ch) 0 chunks.

Definition init_progress (recs : list ChunkComp) (chunks : list Chunk) : Progress :=
  mkProgress (Z.of_nat (length chunks))
    (Z.of_nat (length chunks) - Z.of_nat (length (remaining recs chunks)))
    (sum_frames chunks) (TotalEncodedFrames recs) (TotalEncodedSize recs).

Definition init_state (txt : list ascii) (chunks : list Chunk) : State :=
  mkState (init_progress (GetResume txt) chunks) None txt.

(** What [EncodeAll] returns as its error, for the resume log [txt], the
    planned [chunks] and the trace [evs] of the run (stages before the
    workers start are assumed to succeed). *)
Definition EncodeAll_error (txt : list ascii) (chunks : list Chunk) (evs : list Event)
  : option GoError :=
  if bool_decide (remaining (GetResume txt) chunks = []) then None
  else slot (run (init_state txt chunks) evs).

(** The chunks whose results appear in a trace. *)
Definition ev_chunks (evs : list Event) : list Chunk :=
  omap (fun ev => match ev with EvResult ch _ => Some ch | _ => None end) evs.

(** A trace of a run: every result belongs to a dispatched chunk, and
    each dispatched chunk yields at most one result. *)
Definition trace_of (txt : list ascii) (chunks : list Chunk) (evs : list Event) : Prop :=
  ev_chunks evs ⊆+ remaining (GetResume txt) chunks.

(** The errors passed to [setError], in order. *)
Definition latched (evs : list Event) : list GoError :=
  omap (fun ev => match ev with
                  | EvResult _ (Failed e) => Some e
                  | EvWorkerError e => Some e
                  | _ => None end) evs.

Definition failed_chunks (evs : list Event) : list Chunk :=
  omap (fun ev => match ev with EvResult ch (Failed _) => Some ch | _ => None end) evs.

End Pipeline.
Import Pipeline.

(** ** Package [processing]: the crop decision and output dimensions *)
Module Crop.

Record CropResult := mkCropResult {
  CropFilter : list ascii;
  Required : bool;
  MultipleRatios : bool;
  Message : list ascii
}.

(** [sampleMsg]: [numSamples] is the 141 positions 30/200 .. 170/200. *)
Definition sampleMsg : list ascii := bytes "Analyzed 141 samples".

(** [isEffectiveCrop(crop, sourceWidth, sourceHeight)]. *)
Definition isEffectiveCrop (crop : list ascii) (sourceWidth sourceHeight : N) : bool :=
  match split ":"%char crop with
  | p0 :: p1 :: _ =>
      match parse_uint p0 32 with
      | None => true
      | Some cropWidth =>
          match parse_uint p1 32 with
          | None => true
          | Some cropHeight =>
              negb (N.eqb (cropWidth mod 2 ^ 32) sourceWidth)
              || negb (N.eqb (cropHeight mod 2 ^ 32) sourceHeight)
          end
      end
  | _ => true
  end.

(** [sort.Slice(sorted, func(i, j) { sorted[i].count > sorted[j].count })]
    applied to the map's entries.  Go's map iteration order is
    unspecified and the sort is not stable: the order of the input list
    stands for the iteration order, so quantifying over every list covers
    every tie-break the program can make. *)
Definition count_ge (a b : list ascii * Z) : Prop := snd b <= snd a.

#[global] Instance count_ge_dec : RelDecision count_ge.
Proof. intros a b. unfold count_ge. apply _. Defined.

Definition sort_by_count (l : list (list ascii * Z)) : list (list ascii * Z) :=
  merge_sort count_ge l.

Definition total_samples (l : list (list ascii * Z)) : Z :=
  foldl (fun t e => t + snd e) 0 l.

(** [float64(mostCommon.count) / float64(totalSamples) > 0.8]. *)
Definition dominant (count total : Z) : bool :=
  F64.ltb (F64.of_ratio 8 10) (F64.div (F64.of_N (Z.to_N count)) (F64.of_N (Z.to_N total))).

Definition no_crop : CropResult := mkCropResult [] false false sampleMsg.

Definition crop_to (crop : list ascii) : CropResult :=
  mkCropResult (bytes "crop=" ++ crop) true false (bytes "Black bars detected").

Definition multiple_ratios : CropResult :=
  mkCropResult [] false true (bytes "Multiple aspect ratios detected").

(** [DetectCrop] after the sampling phase: [cropCounts] is the map from
    each plurality rectangle string [w:h:x:y] to its number of samples,
    listed in map iteration order. *)
Definition DetectCrop (disableCrop : bool) (cropCounts : list (list ascii * Z))
    (width height : N) : CropResult :=
  if disableCrop then mkCropResult [] false false (bytes "Skipped")
  else
    match cropCounts with
    | [] => no_crop
    | [(crop, _)] => if negb (isEffectiveCrop crop width height) then no_crop else crop_to crop
    | _ =>
        let totalSamples := total_samples cropCounts in
        match sort_by_count cropCounts with
        | (crop, count) :: _ =>
            if dominant count totalSamples then
              if negb (isEffectiveCrop crop width height) then no_crop else crop_to crop
            else multiple_ratios
        | [] => multiple_ratios
        end
    end.

(** [GetOutputDimensions(originalWidth, originalHeight, cropFilter)]. *)
Definition GetOutputDimensions (originalWidth originalHeight : N) (cropFilter : list ascii)
  : N * N :=
  if bool_decide (cropFilter = []) then (originalWidth, originalHeight)
  else
    let params := trim_prefix (bytes "crop=") cropFilter in
    match split ":"%char params with
    | p0 :: p1 :: _ =>
        match parse_uint p0 32 with
        | Some w =>
            match parse_uint p1 32 with
            | Some h => ((w mod 2 ^ 32)%N, (h mod 2 ^ 32)%N)
            | None => (originalWidth, originalHeight)
            end
        | None => (originalWidth, originalHeight)
        end
    | _ => (originalWidth, originalHeight)
    end.

End Crop.
Import Crop.

(** ** [chunk.ValidateScenes] *)
Module SceneCheck.





End SceneCheck.
Import SceneCheck.

(** ** [processing.sampleCropAtPosition] and [isValidCropFormat] *)
Module Sampling.

(** [isValidCropFormat(crop)]: exactly four colon-separated parts, each
    accepted by [strconv.ParseUint(part, 10, 32)]. *)
Definition isValidCropFormat (crop : list ascii) : bool :=
  match split ":"%char crop with
  | [_; _; _; _] as parts =>
      forallb (fun part => match parse_uint part 32 with Some _ => true | None => false end)
        parts
  | _ => false
  end.

(** [\d+], greedy: the longest prefix of ASCII digits and the rest. *)
Fixpoint digit_span (s : list ascii) : list ascii * list ascii :=
  match s with
  | a :: r => if is_digit a then let '(d, t) := digit_span r in (a :: d, t) else ([], s)
  | [] => ([], [])
  end.

Definition digits_plus (s : list ascii) : option (list ascii * list ascii) :=
  match digit_span s with
  | ([], _) => None
  | (d, t) => Some (d, t)
  end.

Definition colon (s : list ascii) : option (list ascii) :=
  match s with
  | a :: r => if asc_eqb a ":"%char then Some r else None
  | [] => None
  end.

(** The group [(\d+:\d+:\d+:\d+)] matched at the start of [s].  Each
    [\d+] is followed by ':' or ends the group, so backtracking into a
    digit run never yields a match the greedy run misses. *)
Definition crop_group (s : list ascii) : option (list ascii) :=
  match digits_plus s with
  | Some (d1, t1) =>
      match colon t1 with
      | Some t1' =>
          match digits_plus t1' with
          | Some (d2, t2) =>
              match colon t2 with
              | Some t2' =>
                  match digits_plus t2' with
                  | Some (d3, t3) =>
                      match colon t3 with
                      | Some t3' =>
                          match digits_plus t3' with
                          | Some (d4, _) =>
                              Some (d1 ++ ":"%char :: d2 ++ ":"%char :: d3 ++ ":"%char :: d4)
                          | None => None
                          end
                      | None => None
                      end
                  | None => None
                  end
              | None => None
              end
          | None => None
          end
      | None => None
      end
  | None => None
  end.

(** [cropRegex.FindStringSubmatch(line)] for [crop=(\d+:\d+:\d+:\d+)]:
    the group of the leftmost match, or [None] when there is no match. *)
Fixpoint find_crop (line : list ascii) : option (list ascii) :=
  match line with
  | [] => None
  | _ :: rest =>
      match strip_prefix (bytes "crop=") line with
      | Some after =>
          match crop_group after with
          | Some g => Some g
          | None => find_crop rest
          end
      | None => find_crop rest
      end
  end.

(** The value a stderr line contributes to [cropCounts], if any. *)
Definition line_crop (line : list ascii) : option (list ascii) :=
  match find_crop line with
  | Some v => if isValidCropFormat v then Some v else None
  | None => None
  end.

(** [cropCounts[v]++] on the map [map[string]int], as a list with one
    entry per key. *)
Fixpoint incr (k : list ascii) (m : list (list ascii * Z)) : list (list ascii * Z) :=
  match m with
  | [] => [(k, 1)]
  | (k', n) :: r => if bool_decide (k' = k) then (k', n + 1) :: r else (k', n) :: incr k r
  end.

(** The scanning loop over the lines of stderr. *)
Definition crop_counts (lines : list (list ascii)) : list (list ascii * Z) :=
  foldl (fun m line => match line_crop line with Some v => incr v m | None => m end)
    [] lines.

(** [for crop, count := range cropCounts { if count > bestCount { ... } }]
    over the entries in iteration order. *)
Definition best_crop (entries : list (list ascii * Z)) : list ascii :=
  fst (foldl (fun (best : list ascii * Z) (e : list ascii * Z) =>
                if snd best <? snd e then e else best)
             ([], 0) entries).

(** [sampleCropAtPosition] once ffmpeg has started, on the text [stderr]
    it writes; [range] lists a map's entries in Go's (unspecified)
    iteration order.  Lines are the [bufio.Scanner] tokens of [stderr]. *)
Definition sampleCropAtPosition (range : list (list ascii * Z) -> list (list ascii * Z))
    (stderr : list ascii) : list ascii :=
  let cropCounts := crop_counts (scan_lines stderr) in
  match cropCounts with
  | [] => []
  | _ :: _ => best_crop (range cropCounts)
  end.

(** One sampling goroutine's result: [Some stderr] when ffmpeg started and
    wrote [stderr]; [None] when [StderrPipe] or [Start] failed, where
    [sampleCropAtPosition] returns [""]. *)
Definition sample_result (range : list (list ascii * Z) -> list (list ascii * Z))
    (run : option (list ascii)) : list ascii :=
  match run with
  | Some stderr => sampleCropAtPosition range stderr
  | None => []
  end.

(** The collection loop of [DetectCrop]: the result of each sampling
    goroutine, in the order the goroutines take [mu], increments
    [cropCounts] unless it is [""]. *)
Definition collect_samples (samples : list (list ascii)) : list (list ascii * Z) :=
  foldl (fun m crop => if bool_decide (crop = []) then m else incr crop m) [] samples.

End Sampling.
Import Sampling.

(** ** Definitions used only to state claims *)

(** The spec's per-resolution thread cap [T_max]: 6 below width 1920, 10
    below 3840, 16 from 3840. *)
Definition T_max (width : N) : Z :=
  if (width <? 1920)%N then 6 else if (width <? 3840)%N then 10 else 16.

(** The disk state relevant to resume: the indices whose
    [encode/NNNN.ivf] output file exists. *)
Definition OutputFiles := gset Z.

(** The first two colon-separated fields of a crop filter (after
    [TrimPrefix "crop="]), parsed as unsigned 32-bit decimal integers. *)
Definition crop_field (cropFilter : list ascii) (i : nat) : option N :=
  match nth_error (split ":"%char (trim_prefix (bytes "crop=") cropFilter)) i with
  | Some p => parse_uint p 32
  | None => None
  end.



(** Sum of a list of integers. *)
Definition zsum (l : list Z) : Z := foldr Z.add 0 l.





(** The float64 test [count / total > 0.8] agrees with the exact test
    [4 * total < 5 * count] for every [0 <= count <= total <= m]. *)
Definition dominant_exact_upto (m : nat) : bool :=
  forallb (fun t =>
    forallb (fun n =>
      Bool.eqb (dominant (Z.of_nat n) (Z.of_nat t)) (4 * Z.of_nat t <? 5 * Z.of_nat n))
      (seq 0 (S t)))
    (seq 0 (S m)).

(** ** Definitions used to state further properties *)


(** The number of stderr lines contributing the value [k] to [cropCounts]. *)
Definition crop_freq (k : list ascii) (lines : list (list ascii)) : nat :=
  length (filter (fun l => line_crop l = Some k) lines).

(** A log text [AppendDone] can extend line by line: empty, or ending in
    a newline. *)
Definition line_terminated (txt : list ascii) : Prop :=
  txt = [] \/ exists u, txt = u ++ ["010"%char].

(** What the count map holds after the scanning loop has read [ls]: one
    entry per key, each recording how many lines contributed it. *)
Definition counts_inv (ls : list (list ascii)) (m : list (list ascii * Z)) : Prop :=
  NoDup (map fst m) /\
  (forall k n, (k, n) ∈ m -> n = Z.of_nat (crop_freq k ls) /\ 1 <= n) /\
  (forall k, (0 < crop_freq k ls)%nat -> k ∈ map fst m).

(** What the count map of [DetectCrop] holds after the results [ss]. *)
Definition samples_inv (ss : list (list ascii)) (m : list (list ascii * Z)) : Prop :=
  NoDup (map fst m) /\
  (forall k n, (k, n) ∈ m ->
     k <> [] /\ 1 <= n /\ n = Z.of_nat (length (filter (fun s => s = k) ss))) /\
  (forall k, k <> [] -> (0 < length (filter (fun s => s = k) ss))%nat -> k ∈ map fst m) /\
  zsum (map snd m) = Z.of_nat (length (filter (fun s => s <> []) ss)).

(** * Proofs *)

(** ** Threads per worker *)

(** C8: for [W >= 1] (and a non-negative physical core count), the
    threads-per-worker value is
    [clamp(physical / W + (logical > physical ? 1 : 0), 1, T_max(width))]. *)
Theorem threads_per_worker_clamp (h : Host) (W : Z) (width : N) :
  1 <= W -> 0 <= PhysicalCores h ->
  calculateThreadsPerWorker h W width =
  Z.max 1 (Z.min (PhysicalCores h / W + (if LogicalCores h >? PhysicalCores h then 1 else 0))
                 (T_max width)).
Proof.
  intros HW Hp. unfold calculateThreadsPerWorker, T_max.
  destruct (W <=? 0) eqn:E; [lia|].
  rewrite Z.quot_div_nonneg by lia.
  set (q := PhysicalCores h / W).
  destruct (LogicalCores h >? PhysicalCores h);
    destruct (3840 <=? width)%N eqn:E1; destruct (1920 <=? width)%N eqn:E2;
    destruct (width <? 1920)%N eqn:E3; destruct (width <? 3840)%N eqn:E4;
    rewrite ?N.leb_le, ?N.leb_gt, ?N.ltb_lt, ?N.ltb_ge in *; try lia;
    simpl; try (destruct (q <? _) eqn:E5; simpl; rewrite ?Z.ltb_lt, ?Z.ltb_ge in E5); lia.
Qed.

Lemma threads_per_worker_clamp_witness :
  calculateThreadsPerWorker (mkHost 0 8 16) 3 1920 = 3.
Proof.
  rewrite (threads_per_worker_clamp (mkHost 0 8 16) 3 1920) by (simpl; lia).
  reflexivity.
Defined.

(** ** Admission policy *)

(** C4, as stated: [W = clamp(floor(available * 0.70 / class), 1, W_req)]
    with exact arithmetic, capped iff [W < W_req].  Refuted: a reading of
    0 bytes (memory unknown) yields [W = W_req] uncapped, while the
    formula gives 1. *)
Lemma CapWorkers_clamp_counterexample :
  ~ (forall (h : Host) (req : Z) (width height : N), 1 <= req ->
       CapWorkers h req width height =
       (let W := Z.max 1 (Z.min (Z.of_N (AvailableMemoryBytes h * 7
                                           / (10 * memoryPerWorker width height))) req) in
        (W, W <? req))).
Proof.
  intros H. specialize (H (mkHost 0 8 16) 8 1920%N 1080%N ltac:(lia)).
  vm_compute in H. discriminate H.
Qed.

(** C4, amended: for [W_req >= 1] and a positive memory reading,
    [W = clamp(floor(usable / class), 1, W_req)] where [usable] is
    [uint64(float64(available) * 0.7)] and [class = memoryPerWorker], and
    the capped flag is [W < W_req]; a reading of 0 gives [(W_req, false)].
    With 12 GiB, 3840x2160 and [W_req = 8] the result is [(1, true)]. *)
Theorem CapWorkers_clamp (h : Host) (req : Z) (width height : N) :
  1 <= req ->
  CapWorkers h req width height =
  (if (0 <? AvailableMemoryBytes h)%N then
     let W := Z.max 1 (Z.min (Z.of_N (usable (AvailableMemoryBytes h)
                                       / memoryPerWorker width height)) req) in
     (W, W <? req)
   else (req, false))
  /\ CapWorkers (mkHost (12 * GiB) (PhysicalCores h) (LogicalCores h)) req 3840 2160
     = (Z.min 1 req, 1 <? req).
Proof.
  intros Hr. split.
  - unfold CapWorkers.
    destruct (0 <? AvailableMemoryBytes h)%N.
    + pose proof (N2Z.is_nonneg (usable (AvailableMemoryBytes h) / memoryPerWorker width height)).
      set (m := Z.of_N (usable (AvailableMemoryBytes h) / memoryPerWorker width height)) in *.
      destruct (req >? Z.max m 1) eqn:E.
      * rewrite Z.gtb_ltb, Z.ltb_lt in E. f_equal; [lia|].
        symmetry. apply Z.ltb_lt. lia.
      * rewrite Z.gtb_ltb, Z.ltb_ge in E. f_equal; [lia|].
        symmetry. apply Z.ltb_ge. lia.
    + rewrite Z.gtb_ltb, Z.ltb_irrefl. reflexivity.
  - unfold CapWorkers. simpl AvailableMemoryBytes.
    replace (Z.max _ 1) with 1 by (vm_compute; reflexivity).
    replace (0 <? 12 * GiB)%N with true by reflexivity.
    rewrite Z.gtb_ltb.
    destruct (Z.ltb_spec 1 req); f_equal; lia.
Qed.

Lemma CapWorkers_clamp_witness :
  CapWorkers (mkHost (12 * GiB) 8 16) 8 3840 2160 = (1, true).
Proof.
  destruct (CapWorkers_clamp (mkHost (12 * GiB) 8 16) 8 3840 2160 ltac:(lia)) as [_ H].
  cbn [PhysicalCores LogicalCores] in H. rewrite H. reflexivity.
Defined.

(** C9, as stated: the admission result is a function of (requested,
    width, height) alone.  Refuted: [CapWorkers] reads the host's available
    memory on every call, so the same arguments give different results
    under different readings. *)
Lemma CapWorkers_pure_counterexample :
  ~ (forall (h1 h2 : Host) (req : Z) (width height : N),
       CapWorkers h1 req width height = CapWorkers h2 req width height).
Proof.
  intros H. specialize (H (mkHost (12 * GiB) 8 16) (mkHost 0 8 16) 8 3840%N 2160%N).
  vm_compute in H. discriminate H.
Qed.

(** C9, amended: two invocations with the same requested count, the same
    memory class of their dimensions and the same available-memory reading
    return identical [(workers, capped)] results. *)
Theorem CapWorkers_deterministic (h1 h2 : Host) (req : Z) (w1 ht1 w2 ht2 : N) :
  AvailableMemoryBytes h1 = AvailableMemoryBytes h2 ->
  memoryPerWorker w1 ht1 = memoryPerWorker w2 ht2 ->
  CapWorkers h1 req w1 ht1 = CapWorkers h2 req w2 ht2.
Proof. intros Ha Hm. unfold CapWorkers. rewrite Ha, Hm. reflexivity. Qed.

Lemma CapWorkers_deterministic_witness :
  CapWorkers (mkHost (12 * GiB) 8 16) 8 3840 2160 = CapWorkers (mkHost (12 * GiB) 4 4) 8 4096 1716.
Proof.
  apply CapWorkers_deterministic; [reflexivity | vm_compute; reflexivity].
Defined.

(** ** Output dimensions *)

Lemma parse_uint_bound (s : list ascii) (bits n : N) :
  parse_uint s bits = Some n -> (n < 2 ^ bits)%N.
Proof.
  unfold parse_uint. destruct (digits_val s) as [m|]; [|discriminate].
  destruct (m <? 2 ^ bits)%N eqn:E; [|discriminate].
  intros [= <-]. apply N.ltb_lt. exact E.
Qed.

(** C10: [GetOutputDimensions] is total: an empty filter, or a filter whose
    first two colon-separated fields (after an optional [crop=] prefix) do
    not both parse as unsigned (32-bit) integers, yields the original
    dimensions; otherwise the two parsed values are returned unchanged. *)
Theorem GetOutputDimensions_fallback (ow oh : N) (cropFilter : list ascii) :
  (cropFilter = [] -> GetOutputDimensions ow oh cropFilter = (ow, oh))
  /\ (forall w h, cropFilter <> [] -> crop_field cropFilter 0 = Some w ->
        crop_field cropFilter 1 = Some h -> GetOutputDimensions ow oh cropFilter = (w, h))
  /\ (cropFilter <> [] -> crop_field cropFilter 0 = None \/ crop_field cropFilter 1 = None ->
        GetOutputDimensions ow oh cropFilter = (ow, oh)).
Proof.
  unfold GetOutputDimensions, crop_field.
  split; [intros ->; reflexivity|]. split.
  - intros w h Hne Hw Hh. rewrite bool_decide_eq_false_2 by exact Hne.
    destruct (split _ _) as [|p0 [|p1 ps]]; simpl in *; try discriminate.
    rewrite Hw, Hh.
    apply parse_uint_bound in Hw, Hh.
    rewrite !N.mod_small by exact Hw || exact Hh. reflexivity.
  - intros Hne Hno. rewrite bool_decide_eq_false_2 by exact Hne.
    destruct (split _ _) as [|p0 [|p1 ps]]; simpl in *; try reflexivity.
    destruct Hno as [-> | ->]; [reflexivity|].
    destruct (parse_uint p0 32); reflexivity.
Qed.

(** ** Resume: which chunks are skipped *)

Lemma done_lookup_insert (m : gmap Z bool) (k i : Z) :
  done_lookup (<[k := true]> m) i = true <-> k = i \/ done_lookup m i = true.
Proof.
  unfold done_lookup. destruct (decide (k = i)) as [->|Hne].
  - rewrite lookup_insert_eq. tauto.
  - rewrite lookup_insert_ne by exact Hne. tauto.
Qed.

Lemma DoneSet_spec (recs : list ChunkComp) (i : Z) :
  done_lookup (DoneSet recs) i = true <-> i ∈ map CIdx recs.
Proof.
  unfold DoneSet.
  assert (G : forall m, done_lookup (foldl (fun m c => <[CIdx c := true]> m) m recs) i = true
                        <-> done_lookup m i = true \/ i ∈ map CIdx recs).
  { induction recs as [|c recs IH]; intros m; simpl.
    - rewrite elem_of_nil. tauto.
    - rewrite IH, done_lookup_insert, elem_of_cons. intuition congruence. }
  rewrite G. unfold done_lookup at 1. rewrite lookup_empty. intuition discriminate.
Qed.

Lemma remaining_spec (recs : list ChunkComp) (chunks : list Chunk) (ch : Chunk) :
  ch ∈ remaining recs chunks <-> ch ∈ chunks /\ Idx ch ∉ map CIdx recs.
Proof.
  unfold remaining. rewrite list_elem_of_filter, <- DoneSet_spec.
  destruct (done_lookup _ _); simpl; intuition congruence.
Qed.

(** C1, as stated: a planned chunk is skipped iff its index is in
    [done.txt] and its output file exists.  Refuted: the existence of the
    file is never consulted; a logged chunk whose file is missing is
    skipped as well. *)
Lemma resume_skip_counterexample :
  ~ (forall (files : OutputFiles) (txt : list ascii) (chunks : list Chunk) (ch : Chunk),
       ch ∈ chunks ->
       (ch ∉ remaining (GetResume txt) chunks <->
        Idx ch ∈ map CIdx (GetResume txt) /\ Idx ch ∈ files)).
Proof.
  intros H.
  specialize (H ∅ (bytes "0 10 5
") [mkChunk 0 0 10] (mkChunk 0 0 10) ltac:(left)).
  destruct H as [H _].
  assert (Hin : mkChunk 0 0 10 ∉ remaining (GetResume (bytes "0 10 5
")) [mkChunk 0 0 10]).
  { vm_compute. intros Hc. inversion Hc. }
  destruct (H Hin) as [_ Hf]. set_solver.
Qed.

(** C1, amended: a planned chunk is skipped on resume exactly when its
    index appears at least once among the well-formed records of
    [done.txt]; whether its output file exists plays no part, so a chunk
    whose file exists but whose index is not logged is re-encoded. *)
Theorem resume_skip_iff_logged (txt : list ascii) (chunks : list Chunk) (ch : Chunk) :
  ch ∈ chunks ->
  (ch ∉ remaining (GetResume txt) chunks <-> Idx ch ∈ map CIdx (GetResume txt)).
Proof.
  intros Hch. rewrite remaining_spec.
  destruct (decide (Idx ch ∈ map CIdx (GetResume txt))); tauto.
Qed.

Lemma resume_skip_iff_logged_witness :
  mkChunk 1 10 20 ∈ [mkChunk 0 0 10; mkChunk 1 10 20] /\
  (mkChunk 1 10 20 ∉ remaining (GetResume (bytes "1 10 7
")) [mkChunk 0 0 10; mkChunk 1 10 20]).
Proof.
  assert (Hin : mkChunk 1 10 20 ∈ [mkChunk 0 0 10; mkChunk 1 10 20]) by (right; left).
  split; [exact Hin|].
  apply (resume_skip_iff_logged _ _ _ Hin). vm_compute. left.
Defined.

(** ** Resume log: printing and parsing *)
Section ResumeFormat.

Local Definition nl : ascii := "010"%char.

Lemma digit_char_ok (d : N) :
  (d < 10)%N -> is_digit (digit_char d) = true /\ digit_val (digit_char d) = d.
Proof.
  intros Hd. unfold is_digit, digit_val, digit_char.
  rewrite nat_ascii_embedding by lia.
  split; [apply andb_true_iff; split; apply Nat.leb_le; lia | lia].
Qed.

Lemma digit_not_space (a : ascii) : is_digit a = true -> is_space a = false.
Proof.
  unfold is_digit, is_space. intros H. apply andb_true_iff in H as [H1 H2].
  apply Nat.leb_le in H1, H2.
  destruct (Nat.eqb_spec (nat_of_ascii a) 32); [lia|].
  destruct (Nat.leb_spec 9 (nat_of_ascii a)); destruct (Nat.leb_spec (nat_of_ascii a) 13);
    simpl; lia.
Qed.

Lemma digit_not_char (a c : ascii) :
  is_digit a = true -> is_digit c = false -> asc_eqb c a = false.
Proof.
  intros Ha Hc. unfold asc_eqb. destruct (Ascii.eqb_spec c a); [subst; congruence | reflexivity].
Qed.

Lemma digit_not_char_r (a c : ascii) :
  is_digit a = true -> is_digit c = false -> asc_eqb a c = false.
Proof.
  intros Ha Hc. unfold asc_eqb. destruct (Ascii.eqb_spec a c); [subst; congruence | reflexivity].
Qed.

Lemma dec_aux_app (fuel : nat) (n : N) (tail : list ascii) :
  dec_aux fuel n tail = dec_aux fuel n [] ++ tail.
Proof.
  revert n tail. induction fuel as [|f IH]; intros n tail; simpl; [reflexivity|].
  destruct (n <? 10)%N; [reflexivity|].
  rewrite (IH _ (digit_char _ :: tail)), (IH _ [digit_char _]).
  rewrite <- app_assoc. reflexivity.
Qed.

Lemma dec_aux_digits (fuel : nat) (n : N) :
  Forall (fun a => is_digit a = true) (dec_aux fuel n []).
Proof.
  revert n. induction fuel as [|f IH]; intros n; simpl; [constructor|].
  destruct (N.ltb_spec n 10).
  - constructor; [apply digit_char_ok; lia | constructor].
  - rewrite dec_aux_app. apply Forall_app. split; [apply IH|].
    constructor; [apply digit_char_ok, N.mod_lt; lia | constructor].
Qed.

Lemma dec_aux_nonempty (f : nat) (n : N) : dec_aux (S f) n [] <> [].
Proof.
  simpl. destruct (n <? 10)%N; [discriminate|].
  rewrite dec_aux_app. intros H. apply app_eq_nil in H as [_ H]. discriminate.
Qed.

Lemma digits_acc_app (acc : N) (s t : list ascii) :
  digits_acc acc (s ++ t) =
  match digits_acc acc s with Some a => digits_acc a t | None => None end.
Proof.
  revert acc. induction s as [|a s IH]; intros acc; simpl; [reflexivity|].
  destruct (is_digit a); [apply IH | reflexivity].
Qed.

Lemma dec_aux_val (fuel : nat) (n : N) :
  (n < 10 ^ N.of_nat fuel)%N -> digits_acc 0 (dec_aux fuel n []) = Some n.
Proof.
  revert n. induction fuel as [|f IH]; intros n Hn.
  - simpl in *. f_equal. lia.
  - simpl. destruct (N.ltb_spec n 10).
    + cbn [digits_acc]. destruct (digit_char_ok n ltac:(lia)) as [-> ->]. reflexivity.
    + rewrite dec_aux_app, digits_acc_app, IH.
      * cbn [digits_acc]. destruct (digit_char_ok (n mod 10) ltac:(apply N.mod_lt; lia)) as [-> ->].
        f_equal. pose proof (N.div_mod n 10). lia.
      * rewrite Nat2N.inj_succ, N.pow_succ_r' in Hn.
        apply N.Div0.div_lt_upper_bound. lia.
Qed.

Lemma fmt_uint_props (n : N) :
  (n < 2 ^ 64)%N ->
  fmt_uint n <> [] /\ Forall (fun a => is_digit a = true) (fmt_uint n)
  /\ digits_val (fmt_uint n) = Some n.
Proof.
  intros Hn. unfold fmt_uint.
  pose proof (dec_aux_nonempty 19 n) as Hne.
  split; [exact Hne|]. split; [apply dec_aux_digits|].
  unfold digits_val. destruct (dec_aux 20 n []) eqn:E; [contradiction|].
  rewrite <- E. apply dec_aux_val.
  eapply N.lt_le_trans; [exact Hn|]. vm_compute. discriminate.
Qed.

Lemma parse_uint_fmt (n : N) : (n < 2 ^ 64)%N -> parse_uint (fmt_uint n) 64 = Some n.
Proof.
  intros Hn. destruct (fmt_uint_props n Hn) as (_ & _ & Hv).
  unfold parse_uint. rewrite Hv. apply N.ltb_lt in Hn. rewrite Hn. reflexivity.
Qed.

Lemma atoi_fmt (z : Z) : 0 <= z < 2 ^ 63 -> atoi (fmt_int z) = Some z.
Proof.
  intros Hz. unfold fmt_int.
  destruct (Z.ltb_spec z 0); [lia|].
  assert (Hn : (Z.to_N z < 2 ^ 64)%N) by lia.
  destruct (fmt_uint_props _ Hn) as (Hne & Hd & Hv).
  unfold atoi. destruct (fmt_uint (Z.to_N z)) as [|a r] eqn:E; [contradiction|].
  inversion Hd as [|? ? Ha _]; subst.
  rewrite (digit_not_char_r a "-"%char Ha eq_refl).
  rewrite (digit_not_char_r a "+"%char Ha eq_refl).
  rewrite Hv. destruct (N.ltb_spec (Z.to_N z) (2 ^ 63)); [|lia].
  f_equal. lia.
Qed.

Lemma split_by_app_sep (p : ascii -> bool) (u v : list ascii) (c : ascii) :
  p c = true -> split_by p (u ++ c :: v) = split_by p u ++ split_by p v.
Proof.
  intros Hc. induction u as [|a u IH]; simpl.
  - rewrite Hc. reflexivity.
  - rewrite IH. destruct (p a); [reflexivity|].
    destruct (split_by p u) as [|w ws] eqn:E.
    + destruct u; simpl in E; [discriminate|].
      destruct (p a0); [discriminate|]. destruct (split_by p u); discriminate.
    + reflexivity.
Qed.

Lemma split_by_none (p : ascii -> bool) (w : list ascii) :
  Forall (fun a => p a = false) w -> split_by p w = [w].
Proof.
  induction 1 as [|a w Ha _ IH]; simpl; [reflexivity|].
  rewrite Ha, IH. reflexivity.
Qed.

(** A line body: [fmt a ++ " " ++ fmt b ++ " " ++ fmt c]. *)
Definition line_body (c : ChunkComp) : list ascii :=
  fmt_int (CIdx c) ++ [" "%char] ++ fmt_int (CFrames c) ++ [" "%char] ++ fmt_uint (CSize c).

Definition in_range (c : ChunkComp) : Prop :=
  0 <= CIdx c < 2 ^ 63 /\ 0 <= CFrames c < 2 ^ 63 /\ (CSize c < 2 ^ 64)%N.

Lemma fmt_int_props (z : Z) :
  0 <= z < 2 ^ 63 ->
  fmt_int z <> [] /\ Forall (fun a => is_digit a = true) (fmt_int z).
Proof.
  intros Hz. unfold fmt_int. destruct (Z.ltb_spec z 0); [lia|].
  destruct (fmt_uint_props (Z.to_N z) ltac:(lia)) as (? & ? & _). tauto.
Qed.

Lemma digits_no (q : ascii -> bool) (w : list ascii) :
  (forall a, is_digit a = true -> q a = false) ->
  Forall (fun a => is_digit a = true) w -> Forall (fun a => q a = false) w.
Proof. intros Hq Hw. eapply Forall_impl; [exact Hw|]. exact Hq. Qed.

Lemma trim_left_digit (a : ascii) (t : list ascii) :
  is_digit a = true -> trim_left (a :: t) = a :: t.
Proof. intros Ha. simpl. rewrite digit_not_space by exact Ha. reflexivity. Qed.

Lemma digits_head (w : list ascii) :
  w <> [] -> Forall (fun a => is_digit a = true) w ->
  exists a r, w = a :: r /\ is_digit a = true.
Proof. intros Hne Hw. destruct Hw as [|a r Ha _]; [contradiction|]. eauto. Qed.

Lemma trim_left_digits (w t : list ascii) :
  w <> [] -> Forall (fun a => is_digit a = true) w -> trim_left (w ++ t) = w ++ t.
Proof.
  intros Hne Hw. destruct Hw as [|a r Ha _]; [contradiction|].
  simpl. rewrite digit_not_space by exact Ha. reflexivity.
Qed.

Lemma nonempty_rev (w : list ascii) : w <> [] -> rev w <> [].
Proof.
  intros Hne H. apply Hne. apply (f_equal (@rev ascii)) in H.
  rewrite rev_involutive in H. exact H.
Qed.

Definition digit_word (w : list ascii) : Prop :=
  w <> [] /\ Forall (fun a => is_digit a = true) w.

Lemma parse_three (w1 w2 w3 : list ascii) :
  digit_word w1 -> digit_word w2 -> digit_word w3 ->
  parse_done_line (w1 ++ [" "%char] ++ w2 ++ [" "%char] ++ w3) =
  match atoi w1, atoi w2, parse_uint w3 64 with
  | Some i, Some f, Some sz => Some (mkComp i f sz)
  | _, _, _ => None
  end.
Proof.
  intros [Hne1 Hd1] [Hne2 Hd2] [Hne3 Hd3].
  set (x := w1 ++ [" "%char] ++ w2 ++ [" "%char] ++ w3).
  assert (Htrim : trim_space x = x).
  { unfold trim_space, x.
    rewrite trim_left_digits by assumption.
    rewrite !rev_app_distr, <- !app_assoc.
    rewrite trim_left_digits by (auto using nonempty_rev, Forall_rev).
    rewrite !app_assoc, <- !rev_app_distr, rev_involutive, <- !app_assoc. reflexivity. }
  assert (Hsp : forall w, Forall (fun a => is_digit a = true) w ->
                          Forall (fun a => is_space a = false) w).
  { intros w Hw. apply digits_no; [exact digit_not_space | exact Hw]. }
  assert (Hf : fields x = [w1; w2; w3]).
  { unfold fields, x. cbn [app].
    rewrite split_by_app_sep by reflexivity.
    rewrite split_by_app_sep by reflexivity.
    rewrite !split_by_none by auto.
    cbn [app]. rewrite !filter_cons, !bool_decide_eq_false_2 by assumption.
    reflexivity. }
  unfold parse_done_line. rewrite Htrim, Hf.
  rewrite bool_decide_eq_false_2; [reflexivity|].
  unfold x. intros H. apply app_eq_nil in H as [H _]. contradiction.
Qed.

Lemma line_body_parse (c : ChunkComp) :
  in_range c -> parse_done_line (line_body c) = Some c.
Proof.
  intros (Hi & Hf & Hs).
  destruct (fmt_int_props _ Hi) as (Hne1 & Hd1).
  destruct (fmt_int_props _ Hf) as (Hne2 & Hd2).
  destruct (fmt_uint_props _ Hs) as (Hne3 & Hd3 & _).
  unfold line_body. rewrite parse_three by (split; assumption).
  rewrite (atoi_fmt _ Hi), (atoi_fmt _ Hf), (parse_uint_fmt _ Hs).
  destruct c; reflexivity.
Qed.

Lemma done_line_body (c : ChunkComp) : done_line c = line_body c ++ [nl].
Proof. unfold done_line, line_body. rewrite <- !app_assoc. reflexivity. Qed.

Lemma line_body_no_nl (c : ChunkComp) :
  in_range c -> Forall (fun a => asc_eqb nl a = false) (line_body c).
Proof.
  intros (Hi & Hf & Hs).
  destruct (fmt_int_props _ Hi) as (_ & Hd1).
  destruct (fmt_int_props _ Hf) as (_ & Hd2).
  destruct (fmt_uint_props _ Hs) as (_ & Hd3 & _).
  assert (Hq : forall a, is_digit a = true -> asc_eqb nl a = false).
  { intros a Ha. apply digit_not_char; [exact Ha | reflexivity]. }
  unfold line_body. repeat (apply Forall_app; split);
    try (apply digits_no; assumption); repeat constructor.
Qed.

Lemma drop_cr_body (c : ChunkComp) : in_range c -> drop_cr (line_body c) = line_body c.
Proof.
  intros (Hi & Hf & Hs).
  destruct (fmt_uint_props _ Hs) as (Hne3 & Hd3 & _).
  unfold drop_cr, line_body. rewrite !rev_app_distr.
  destruct (digits_head (rev (fmt_uint (CSize c)))) as (b & r' & E' & Hb).
  { intros H. apply Hne3. apply (f_equal (@rev ascii)) in H. rewrite rev_involutive in H.
    exact H. }
  { apply Forall_rev. exact Hd3. }
  rewrite E'. simpl. rewrite (digit_not_char_r b "013"%char Hb eq_refl). reflexivity.
Qed.

Lemma log_text (cs : list ChunkComp) :
  foldl (fun txt c => AppendDone c txt) [] cs = concat (map done_line cs).
Proof.
  assert (G : forall acc, foldl (fun txt c => AppendDone c txt) acc cs
                          = acc ++ concat (map done_line cs)).
  { induction cs as [|c cs IH]; intros acc; simpl; [by rewrite app_nil_r|].
    rewrite IH. unfold AppendDone. rewrite app_assoc. reflexivity. }
  rewrite G. reflexivity.
Qed.

Lemma split_log (cs : list ChunkComp) :
  Forall in_range cs ->
  split nl (concat (map done_line cs)) = map line_body cs ++ [[]].
Proof.
  induction 1 as [|c cs Hc _ IH]; cbn [map concat]; [reflexivity|].
  rewrite done_line_body, <- app_assoc. cbn [app]. unfold split.
  rewrite split_by_app_sep by (apply Ascii.eqb_refl).
  rewrite split_by_none by (apply line_body_no_nl; exact Hc).
  unfold split in IH. rewrite IH. reflexivity.
Qed.

End ResumeFormat.

(** C7: for chunk completion records with non-negative fields (each within
    its Go type: [int] below 2^63, [uint64] below 2^64), the log written by
    appending them with [AppendDone] to a new [done.txt] parses back with
    [GetResume] to exactly those records; for one record,
    [parse(format(c)) = c]. *)
Theorem resume_log_roundtrip (cs : list ChunkComp) :
  Forall in_range cs ->
  GetResume (foldl (fun txt c => AppendDone c txt) [] cs) = cs.
Proof.
  intros Hcs. rewrite log_text. unfold GetResume, scan_lines.
  rewrite split_log by exact Hcs.
  rewrite rev_app_distr. cbn [rev app]. rewrite rev_involutive.
  induction Hcs as [|c cs Hc _ IH]; [reflexivity|].
  cbn [map]. change (omap parse_done_line (drop_cr (line_body c) :: map drop_cr (map line_body cs)))
    with (match parse_done_line (drop_cr (line_body c)) with
          | Some y => y :: omap parse_done_line (map drop_cr (map line_body cs))
          | None => omap parse_done_line (map drop_cr (map line_body cs)) end).
  rewrite drop_cr_body, line_body_parse by exact Hc.
  rewrite IH. reflexivity.
Qed.

Lemma resume_log_roundtrip_witness :
  GetResume (AppendDone (mkComp 7 240 1048576) []) = [mkComp 7 240 1048576].
Proof.
  apply (resume_log_roundtrip [mkComp 7 240 1048576]).
  repeat constructor; vm_compute; discriminate.
Defined.

(** ** Chunk planning: [LoadScenes] and [Chunkify] *)









(** ** Error latching in [EncodeAll] *)

Lemma run_cons (st : State) (ev : Event) (evs : list Event) :
  run st (ev :: evs) = run (step st ev) evs.
Proof. reflexivity. Qed.

Lemma run_app (st : State) (evs1 evs2 : list Event) :
  run st (evs1 ++ evs2) = run (run st evs1) evs2.
Proof. unfold run. apply foldl_app. Qed.

(** The slot after a run: an error already latched stays; otherwise the
    first error passed to [setError] is latched. *)
Lemma run_slot (st : State) (evs : list Event) :
  slot (run st evs) =
  match slot st with Some e => Some e | None => head (latched evs) end.
Proof.
  revert st. induction evs as [|ev evs IH]; intros st.
  - unfold run; cbn. destruct (slot st); reflexivity.
  - rewrite run_cons, IH.
    destruct ev as [ch [sz|e]|e]; cbn; destruct (slot st); reflexivity.
Qed.

Lemma failed_in_ev_chunks (evs : list Event) (ch : Chunk) :
  ch ∈ failed_chunks evs -> ch ∈ ev_chunks evs.
Proof.
  induction evs as [|ev evs IH]; cbn; [intros H; inversion H|].
  destruct ev as [c [sz|e]|e]; cbn; rewrite ?elem_of_cons; intuition.
Qed.

Lemma failed_latched (evs : list Event) :
  failed_chunks evs <> [] -> latched evs <> [].
Proof.
  induction evs as [|ev evs IH]; cbn; [congruence|].
  destruct ev as [c [sz|e]|e]; cbn; congruence || auto.
Qed.

(** C6: when at least one chunk of a run fails, [EncodeAll] returns exactly
    one error, the first one passed to [setError] (the compare-and-swap
    latch); no event appended after the trace changes it. *)
Theorem first_error_returned (txt : list ascii) (chunks : list Chunk) (evs : list Event) :
  trace_of txt chunks evs -> failed_chunks evs <> [] ->
  exists e, head (latched evs) = Some e /\
    EncodeAll_error txt chunks evs = Some e /\
    (forall evs', EncodeAll_error txt chunks (evs ++ evs') = Some e).
Proof.
  intros Htr Hf.
  assert (Hrem : remaining (GetResume txt) chunks <> []).
  { destruct (failed_chunks evs) as [|ch r] eqn:E; [congruence|].
    assert (Hin : ch ∈ ev_chunks evs).
    { apply failed_in_ev_chunks. rewrite E. left. }
    intros He. unfold trace_of in Htr. rewrite He in Htr.
    pose proof (elem_of_submseteq _ _ _ Hin Htr) as Hn. inversion Hn. }
  pose proof (failed_latched evs Hf) as Hl.
  destruct (latched evs) as [|e rest] eqn:HL; [congruence|].
  exists e. split; [reflexivity|].
  assert (Hs : slot (run (init_state txt chunks) evs) = Some e).
  { rewrite run_slot, HL. reflexivity. }
  unfold EncodeAll_error. rewrite bool_decide_eq_false_2 by exact Hrem.
  split; [exact Hs|].
  intros evs'. rewrite run_app, run_slot, Hs. reflexivity.
Qed.

Lemma first_error_returned_witness :
  exists e, head (latched [EvResult (mkChunk 0 0 10) (Encoded 5);
                           EvResult (mkChunk 1 10 20) (Failed (mkError (bytes "a")));
                           EvWorkerError (mkError (bytes "b"))]) = Some e /\
    EncodeAll_error [] [mkChunk 0 0 10; mkChunk 1 10 20]
      [EvResult (mkChunk 0 0 10) (Encoded 5);
       EvResult (mkChunk 1 10 20) (Failed (mkError (bytes "a")));
       EvWorkerError (mkError (bytes "b"))] = Some e /\
    (forall evs', EncodeAll_error [] [mkChunk 0 0 10; mkChunk 1 10 20]
      ([EvResult (mkChunk 0 0 10) (Encoded 5);
        EvResult (mkChunk 1 10 20) (Failed (mkError (bytes "a")));
        EvWorkerError (mkError (bytes "b"))] ++ evs') = Some e).
Proof.
  apply first_error_returned.
  - unfold trace_of. vm_compute. reflexivity.
  - vm_compute. discriminate.
Defined.

(** ** Progress of the collector *)


Lemma zsum_perm (l k : list Z) : Permutation l k -> zsum l = zsum k.
Proof. induction 1; unfold zsum in *; cbn [foldr]; lia. Qed.




Lemma foldl_sum_map {A} (f : A -> Z) (a : Z) (l : list A) :
  foldl (fun t x => t + f x) a l = a + zsum (map f l).
Proof.
  revert a. induction l as [|x l IH]; intros a; cbn; [lia|].
  rewrite IH. unfold zsum. lia.
Qed.




Lemma ev_chunks_app (evs1 evs2 : list Event) :
  ev_chunks (evs1 ++ evs2) = ev_chunks evs1 ++ ev_chunks evs2.
Proof. apply omap_app. Qed.











(** ** The crop decision *)

Lemma dominant_exact_141 : dominant_exact_upto 141 = true.
Proof. vm_compute. reflexivity. Qed.

Lemma dominant_exact (n t : Z) :
  0 <= n <= t -> t <= 141 -> dominant n t = (4 * t <? 5 * n).
Proof.
  intros Hn Ht. pose proof dominant_exact_141 as H.
  unfold dominant_exact_upto in H. rewrite forallb_forall in H.
  specialize (H (Z.to_nat t) ltac:(apply in_seq; lia)).
  rewrite forallb_forall in H.
  specialize (H (Z.to_nat n) ltac:(apply in_seq; lia)).
  rewrite !Z2Nat.id in H by lia.
  apply Bool.eqb_prop in H. exact H.
Qed.

Lemma zsum_map_nonneg {A} (f : A -> Z) (l : list A) :
  Forall (fun e => 0 <= f e) l -> 0 <= zsum (map f l).
Proof. induction 1; unfold zsum in *; cbn [map foldr]; lia. Qed.

Lemma total_samples_zsum (l : list (list ascii * Z)) :
  total_samples l = zsum (map snd l).
Proof. unfold total_samples. rewrite foldl_sum_map. lia. Qed.

Lemma one_entry_le (l : list (list ascii * Z)) (x : list ascii * Z) :
  x ∈ l -> Forall (fun e => 0 <= snd e) l -> snd x <= zsum (map snd l).
Proof.
  intros Hx HF. apply elem_of_Permutation in Hx as [k Hk].
  rewrite Hk in HF. apply Forall_cons in HF as [_ HF].
  rewrite (zsum_perm _ _ (Permutation_map snd Hk)).
  pose proof (zsum_map_nonneg snd k HF).
  change (zsum (map snd (x :: k))) with (snd x + zsum (map snd k)). lia.
Qed.

Lemma two_entries_sum (l : list (list ascii * Z)) (x y : list ascii * Z) :
  x ∈ l -> y ∈ l -> x <> y -> Forall (fun e => 0 <= snd e) l ->
  snd x + snd y <= zsum (map snd l).
Proof.
  intros Hx Hy Hne HF. apply elem_of_Permutation in Hx as [k Hk].
  rewrite Hk in Hy, HF. apply elem_of_cons in Hy as [->|Hy]; [congruence|].
  apply Forall_cons in HF as [_ HF].
  rewrite (zsum_perm _ _ (Permutation_map snd Hk)).
  change (zsum (map snd (x :: k))) with (snd x + zsum (map snd k)).
  pose proof (one_entry_le k y Hy HF). lia.
Qed.

Lemma DetectCrop_many (cropCounts : list (list ascii * Z)) (width height : N) :
  (2 <= length cropCounts)%nat ->
  DetectCrop false cropCounts width height =
  match sort_by_count cropCounts with
  | (crop, count) :: _ =>
      if dominant count (total_samples cropCounts) then
        if negb (isEffectiveCrop crop width height) then no_crop else crop_to crop
      else multiple_ratios
  | [] => multiple_ratios
  end.
Proof.
  intros Hl. destruct cropCounts as [|[c1 k1] [|e2 rest]]; cbn in Hl; try lia.
  reflexivity.
Qed.

(** C5, as stated: with at least two distinct rectangles, every outcome
    other than cropping is flagged as multiple aspect ratios.  Refuted: a
    dominant rectangle equal to the source gives no crop without the flag. *)
Lemma crop_decision_counterexample :
  ~ (forall (cropCounts : list (list ascii * Z)) (width height : N),
       (2 <= length cropCounts)%nat -> NoDup (map fst cropCounts) ->
       Forall (fun e => 1 <= snd e) cropCounts -> total_samples cropCounts <= 141 ->
       Required (DetectCrop false cropCounts width height) = false ->
       MultipleRatios (DetectCrop false cropCounts width height) = true).
Proof.
  intros H.
  specialize (H [(bytes "1920:1080:0:0", 9); (bytes "1920:800:0:140", 1)] 1920%N 1080%N).
  assert (H1 : (2 <= length [(bytes "1920:1080:0:0", 9); (bytes "1920:800:0:140", 1)])%nat)
    by (cbn; lia).
  assert (H2 : NoDup (map fst [(bytes "1920:1080:0:0", 9); (bytes "1920:800:0:140", 1)])).
  { cbn. constructor; [|constructor; [|constructor]].
    - rewrite list_elem_of_singleton. discriminate.
    - apply not_elem_of_nil. }
  assert (H3 : Forall (fun e => 1 <= snd e)
                 [(bytes "1920:1080:0:0", 9); (bytes "1920:800:0:140", 1)])
    by (repeat constructor; cbn; lia).
  assert (H4 : total_samples [(bytes "1920:1080:0:0", 9); (bytes "1920:800:0:140", 1)] <= 141)
    by (unfold total_samples; cbn; lia).
  specialize (H H1 H2 H3 H4).
  assert (H5 : Required (DetectCrop false [(bytes "1920:1080:0:0", 9);
                 (bytes "1920:800:0:140", 1)] 1920 1080) = false)
    by (vm_compute; reflexivity).
  specialize (H H5). vm_compute in H. discriminate H.
Qed.

(** C5, amended: with at least two rectangles, the sampler crops to a most
    common rectangle [crop] (count [n]) when its share is above 0.8, i.e.
    [4 * total < 5 * n], and [crop] differs from the source dimensions; when
    the share is above 0.8 but [crop] matches the source it decides no crop
    without the multiple-ratios flag; otherwise it decides no crop flagged as
    multiple aspect ratios.  At most 141 samples are counted. *)
Theorem crop_decision (cropCounts : list (list ascii * Z)) (width height : N)
  (crop : list ascii) (n : Z) :
  (2 <= length cropCounts)%nat ->
  Forall (fun e => 0 <= snd e) cropCounts ->
  total_samples cropCounts <= 141 ->
  (crop, n) ∈ cropCounts -> Forall (fun e => snd e <= n) cropCounts ->
  DetectCrop false cropCounts width height =
  if 4 * total_samples cropCounts <? 5 * n then
    (if isEffectiveCrop crop width height then crop_to crop else no_crop)
  else multiple_ratios.
Proof.
  intros Hlen Hnn Ht Hin Hmax.
  rewrite (DetectCrop_many _ _ _ Hlen). unfold sort_by_count.
  pose proof (merge_sort_Permutation count_ge cropCounts) as Hp.
  assert (Hs : Sorted count_ge (merge_sort count_ge cropCounts)).
  { apply Sorted_merge_sort. intros a b. unfold count_ge. lia. }
  assert (Htr : Transitive count_ge) by (intros a b c; unfold count_ge; lia).
  apply Sorted_StronglySorted in Hs; [|exact Htr].
  rewrite total_samples_zsum in *.
  assert (HnT : 0 <= n <= zsum (map snd cropCounts)).
  { split.
    - apply (proj1 (Forall_forall _ _) Hnn _ Hin).
    - apply (one_entry_le _ _ Hin Hnn). }
  destruct (merge_sort count_ge cropCounts) as [|[c k] s] eqn:E.
  - apply Permutation_length in Hp. cbn in Hp. lia.
  - apply StronglySorted_cons in Hs as [Hall _].
    assert (Hck : (c, k) ∈ cropCounts) by (rewrite <- Hp; left).
    assert (Hk : k = n).
    { pose proof (proj1 (Forall_forall _ _) Hmax _ Hck) as H1. cbn in H1.
      rewrite <- Hp in Hin. apply elem_of_cons in Hin as [Hq|Hq].
      - injection Hq. lia.
      - pose proof (proj1 (Forall_forall _ _) Hall _ Hq) as H2.
        unfold count_ge in H2. cbn in H2. lia. }
    subst k.
    rewrite (dominant_exact n) by lia.
    destruct (Z.ltb_spec (4 * zsum (map snd cropCounts)) (5 * n)) as [Hd|Hd];
      [|reflexivity].
    destruct (List.list_eq_dec ascii_dec c crop) as [->|Hne].
    + destruct (isEffectiveCrop crop width height); reflexivity.
    + exfalso.
      assert (Hxy : (c, n) <> (crop, n)) by (intros Heq; injection Heq; auto).
      pose proof (two_entries_sum _ _ _ Hck Hin Hxy Hnn). cbn in H. lia.
Qed.

Lemma crop_decision_witness :
  DetectCrop false [(bytes "1920:800:0:140", 130); (bytes "1920:1080:0:0", 11)]
    1920 1080 = crop_to (bytes "1920:800:0:140").
Proof.
  rewrite (crop_decision _ _ _ (bytes "1920:800:0:140") 130).
  - vm_compute. reflexivity.
  - cbn. lia.
  - repeat constructor; cbn; lia.
  - unfold total_samples. cbn. lia.
  - left.
  - repeat constructor; cbn; lia.
Defined.

(** ** Further properties: the thread budget *)

Lemma maxThreads_T_max (width : N) :
  (if (3840 <=? width)%N then 16 else if (1920 <=? width)%N then 10 else 6) = T_max width.
Proof.
  unfold T_max. destruct (N.leb_spec 3840 width); destruct (N.leb_spec 1920 width);
    destruct (N.ltb_spec width 1920); destruct (N.ltb_spec width 3840); lia.
Qed.

Lemma T_max_ge (width : N) : 6 <= T_max width.
Proof. unfold T_max. destruct (width <? 1920)%N; [|destruct (width <? 3840)%N]; lia. Qed.

(** X: with [W >= 1] workers and a non-negative physical core count, each
    worker gets between 1 and [T_max(width)] threads, and the threads of
    all workers together, [W * threadsPerWorker], never exceed
    [physical + W]; without SMT ([logical <= physical]) they never exceed
    [max(W, physical)]. *)
Theorem threads_total_bound (h : Host) (W : Z) (width : N) :
  1 <= W -> 0 <= PhysicalCores h ->
  let t := calculateThreadsPerWorker h W width in
  1 <= t <= T_max width /\ W * t <= PhysicalCores h + W /\
  (LogicalCores h <= PhysicalCores h -> W * t <= Z.max W (PhysicalCores h)).
Proof.
  intros HW Hp t. subst t. unfold calculateThreadsPerWorker.
  destruct (Z.leb_spec W 0); [lia|].
  rewrite maxThreads_T_max, Z.quot_div_nonneg by lia.
  pose proof (Z.mul_div_le (PhysicalCores h) W ltac:(lia)) as Hq.
  pose proof (T_max_ge width) as HM.
  set (q := PhysicalCores h / W) in *. set (M := T_max width) in *.
  destruct (Z.gtb_spec (LogicalCores h) (PhysicalCores h)) as [Hs|Hs];
    destruct (Z.ltb_spec q M); cbn [andb]; split; try lia; split; try nia;
    intros Hl; nia.
Qed.

Lemma threads_total_bound_witness :
  let t := calculateThreadsPerWorker (mkHost 0 12 24) 5 1920 in
  1 <= t <= T_max 1920 /\ 5 * t <= 12 + 5 /\ (24 <= 12 -> 5 * t <= Z.max 5 12).
Proof. apply (threads_total_bound (mkHost 0 12 24) 5 1920); cbn; lia. Defined.

(** ** Further properties: extending the resume log *)

Lemma split_nl_app (u v : list ascii) :
  split "010"%char (u ++ "010"%char :: v) = split "010"%char u ++ split "010"%char v.
Proof. unfold split. apply split_by_app_sep. reflexivity. Qed.

Lemma scan_lines_terminated (u : list ascii) :
  scan_lines (u ++ ["010"%char]) = map drop_cr (split "010"%char u).
Proof.
  unfold scan_lines. rewrite split_nl_app. cbn [split split_by].
  rewrite rev_app_distr. cbn [rev app]. rewrite rev_involutive. reflexivity.
Qed.

Lemma scan_lines_line_terminated (txt : list ascii) :
  line_terminated txt ->
  exists ls, scan_lines txt = map drop_cr ls /\
    forall v, scan_lines (txt ++ v ++ ["010"%char]) = map drop_cr (ls ++ split "010"%char v).
Proof.
  intros [-> | (u & ->)].
  - exists []. split; [reflexivity|]. intros v. apply scan_lines_terminated.
  - exists (split "010"%char u). split; [apply scan_lines_terminated|].
    intros v. rewrite <- app_assoc. cbn [app].
    rewrite app_comm_cons, app_assoc, scan_lines_terminated, split_nl_app. reflexivity.
Qed.

Lemma GetResume_append (txt : list ascii) (c : ChunkComp) :
  in_range c -> line_terminated txt ->
  GetResume (AppendDone c txt) = GetResume txt ++ [c].
Proof.
  intros Hc Ht. destruct (scan_lines_line_terminated txt Ht) as (ls & E1 & E2).
  unfold GetResume, AppendDone. rewrite E1, done_line_body, E2.
  unfold split. rewrite split_by_none by (apply line_body_no_nl; exact Hc).
  rewrite map_app, omap_app. cbn [map].
  rewrite drop_cr_body by exact Hc. f_equal.
  change (omap parse_done_line [line_body c])
    with (match parse_done_line (line_body c) with Some y => [y] | None => [] end).
  rewrite line_body_parse by exact Hc. reflexivity.
Qed.

Lemma AppendDone_terminated (txt : list ascii) (c : ChunkComp) :
  line_terminated (AppendDone c txt).
Proof.
  right. exists (txt ++ line_body c). unfold AppendDone.
  rewrite done_line_body, app_assoc. reflexivity.
Qed.

Lemma GetResume_appends (txt : list ascii) (cs : list ChunkComp) :
  Forall in_range cs -> line_terminated txt ->
  GetResume (foldl (fun t c => AppendDone c t) txt cs) = GetResume txt ++ cs.
Proof.
  intros Hcs. revert txt. induction Hcs as [|c cs Hc _ IH]; intros txt Ht; cbn [foldl].
  - rewrite app_nil_r. reflexivity.
  - rewrite IH by apply AppendDone_terminated.
    rewrite GetResume_append by assumption. rewrite <- app_assoc. reflexivity.
Qed.

(** X: appending completion records (idx and frames in [0, 2^63), size
    below 2^64) with [AppendDone] to an existing [done.txt] that is empty
    or ends in a newline adds exactly those records, in order, after the
    records [GetResume] already read, whatever else the earlier lines
    contain. *)
Theorem resume_log_extend (txt : list ascii) (cs : list ChunkComp) :
  Forall in_range cs -> line_terminated txt ->
  GetResume (foldl (fun t c => AppendDone c t) txt cs) = GetResume txt ++ cs.
Proof. apply GetResume_appends. Qed.

Lemma resume_log_extend_witness :
  GetResume (foldl (fun t c => AppendDone c t) (bytes "garbage line
3 40 9
") [mkComp 4 50 11]) = GetResume (bytes "garbage line
3 40 9
") ++ [mkComp 4 50 11].
Proof.
  apply resume_log_extend.
  - repeat constructor; vm_compute; discriminate.
  - right. exists (bytes "garbage line
3 40 9"). reflexivity.
Defined.

(** ** Further properties: the log a run leaves for the next run *)





(** ** Further properties: scene plans for any frame numbers *)





(** ** Further properties: [ValidateScenes] on loaded plans *)






(** ** Further properties: crop strings and output dimensions *)

Lemma strip_prefix_app (p s : list ascii) : strip_prefix p (p ++ s) = Some s.
Proof.
  induction p as [|a p IH]; [reflexivity|].
  cbn [app strip_prefix]. unfold asc_eqb. rewrite Ascii.eqb_refl. exact IH.
Qed.

Lemma valid_crop_parts (crop : list ascii) :
  isValidCropFormat crop = true ->
  exists p0 p1 p2 p3 w h, split ":"%char crop = [p0; p1; p2; p3] /\
    parse_uint p0 32 = Some w /\ parse_uint p1 32 = Some h.
Proof.
  unfold isValidCropFormat.
  destruct (split ":"%char crop) as [|p0 [|p1 [|p2 [|p3 [|p4 ps]]]]]; try discriminate.
  cbn [forallb]. destruct (parse_uint p0 32) as [w|] eqn:Hw; cbn [andb]; [|discriminate].
  destruct (parse_uint p1 32) as [h|] eqn:Hh; cbn [andb]; [|discriminate].
  intros _. exists p0, p1, p2, p3, w, h. auto.
Qed.

Lemma valid_crop_nonempty : isValidCropFormat [] = false.
Proof. reflexivity. Qed.

Lemma crop_filter_dims (crop : list ascii) (sw sh : N) :
  isValidCropFormat crop = true ->
  exists w h, GetOutputDimensions sw sh (bytes "crop=" ++ crop) = (w, h) /\
    isEffectiveCrop crop sw sh = negb (N.eqb w sw) || negb (N.eqb h sh).
Proof.
  intros Hv. destruct (valid_crop_parts crop Hv) as (p0 & p1 & p2 & p3 & w & h & Hs & Hw & Hh).
  exists w, h.
  pose proof (parse_uint_bound _ _ _ Hw) as Bw. pose proof (parse_uint_bound _ _ _ Hh) as Bh.
  unfold GetOutputDimensions, isEffectiveCrop.
  rewrite bool_decide_eq_false_2 by (cbn; discriminate).
  unfold trim_prefix. rewrite strip_prefix_app, Hs, Hw, Hh.
  rewrite !N.mod_small by assumption. split; reflexivity.
Qed.

(** X: for a crop value [w:h:x:y] that [isValidCropFormat] accepts,
    [isEffectiveCrop] holds exactly when the filter [crop=w:h:x:y] changes
    the output dimensions computed by [GetOutputDimensions]. *)
Theorem effective_iff_resizes (crop : list ascii) (sw sh : N) :
  isValidCropFormat crop = true ->
  (isEffectiveCrop crop sw sh = true <->
   GetOutputDimensions sw sh (bytes "crop=" ++ crop) <> (sw, sh)).
Proof.
  intros Hv. destruct (crop_filter_dims crop sw sh Hv) as (w & h & -> & ->).
  destruct (N.eqb_spec w sw); destruct (N.eqb_spec h sh); cbn; split; intros H;
    try congruence; try discriminate; intros [= ? ?]; congruence.
Qed.

Lemma effective_iff_resizes_witness :
  isValidCropFormat (bytes "1920:800:0:140") = true /\
  (isEffectiveCrop (bytes "1920:800:0:140") 1920 1080 = true <->
   GetOutputDimensions 1920 1080 (bytes "crop=" ++ bytes "1920:800:0:140") <> (1920%N, 1080%N)).
Proof.
  assert (Hv : isValidCropFormat (bytes "1920:800:0:140") = true) by (vm_compute; reflexivity).
  split; [exact Hv|]. exact (effective_iff_resizes _ 1920 1080 Hv).
Defined.

Lemma choose_crop_dims (crop : list ascii) (sw sh : N) :
  isValidCropFormat crop = true ->
  let r := if negb (isEffectiveCrop crop sw sh) then no_crop else crop_to crop in
  Required r = true <-> GetOutputDimensions sw sh (CropFilter r) <> (sw, sh).
Proof.
  intros Hv r. subst r.
  destruct (crop_filter_dims crop sw sh Hv) as (w & h & Hd & He).
  destruct (isEffectiveCrop crop sw sh) eqn:E; cbn [negb].
  - cbn [Required crop_to CropFilter]. rewrite Hd. rewrite He in E.
    split; [|reflexivity]. intros _.
    destruct (N.eqb_spec w sw); destruct (N.eqb_spec h sh); cbn in E;
      try discriminate; intros [= ? ?]; congruence.
  - cbn. split; [discriminate|]. intros H. exfalso. apply H. reflexivity.
Qed.

Lemma detect_crop_dims (disableCrop : bool)
    (cropCounts : list (list ascii * Z)) (sw sh : N) :
  Forall (fun e => isValidCropFormat (fst e) = true) cropCounts ->
  let r := DetectCrop disableCrop cropCounts sw sh in
  Required r = true <-> GetOutputDimensions sw sh (CropFilter r) <> (sw, sh).
Proof.
  intros Hv r. subst r.
  assert (Hnone : forall r : CropResult, CropFilter r = [] -> Required r = false ->
            Required r = true <-> GetOutputDimensions sw sh (CropFilter r) <> (sw, sh)).
  { intros r Hf Hr. rewrite Hf, Hr. cbn. split; [discriminate|].
    intros H. exfalso. apply H. reflexivity. }
  destruct disableCrop; [apply Hnone; reflexivity|].
  destruct cropCounts as [|[c1 k1] [|e2 rest]].
  - apply Hnone; reflexivity.
  - apply Forall_cons in Hv as [Hv _]. apply (choose_crop_dims c1 sw sh Hv).
  - rewrite DetectCrop_many by (cbn; lia).
    pose proof (merge_sort_Permutation count_ge ((c1, k1) :: e2 :: rest)) as Hp.
    unfold sort_by_count.
    destruct (merge_sort count_ge ((c1, k1) :: e2 :: rest)) as [|[c k] s] eqn:E.
    + apply Hnone; reflexivity.
    + assert (Hin : (c, k) ∈ (c1, k1) :: e2 :: rest) by (rewrite <- Hp; left).
      rewrite Forall_forall in Hv. specialize (Hv _ Hin). cbn in Hv.
      destruct (dominant k _); [apply (choose_crop_dims c sw sh Hv)|].
      apply Hnone; reflexivity.
Qed.

(** X: when every value in [cropCounts] is a crop [isValidCropFormat]
    accepts (as [sampleCropAtPosition] guarantees), [DetectCrop] reports
    [Required] exactly when its [CropFilter] makes [GetOutputDimensions]
    differ from the source dimensions; every decision without cropping
    leaves the dimensions unchanged. *)
Theorem detect_crop_required_iff_resizes (disableCrop : bool)
    (cropCounts : list (list ascii * Z)) (sw sh : N) :
  Forall (fun e => isValidCropFormat (fst e) = true) cropCounts ->
  let r := DetectCrop disableCrop cropCounts sw sh in
  Required r = true <-> GetOutputDimensions sw sh (CropFilter r) <> (sw, sh).
Proof. apply detect_crop_dims. Qed.

Lemma detect_crop_required_iff_resizes_witness :
  Forall (fun e => isValidCropFormat (fst e) = true)
    [(bytes "1920:800:0:140", 130); (bytes "1920:1080:0:0", 11)] /\
  (Required (DetectCrop false [(bytes "1920:800:0:140", 130); (bytes "1920:1080:0:0", 11)]
               1920 1080) = true <->
   GetOutputDimensions 1920 1080
     (CropFilter (DetectCrop false [(bytes "1920:800:0:140", 130);
                                    (bytes "1920:1080:0:0", 11)] 1920 1080))
   <> (1920%N, 1080%N)).
Proof.
  assert (Hv : Forall (fun e => isValidCropFormat (fst e) = true)
                 [(bytes "1920:800:0:140", 130); (bytes "1920:1080:0:0", 11)])
    by (repeat constructor).
  split; [exact Hv|]. exact (detect_crop_required_iff_resizes false _ 1920 1080 Hv).
Defined.

(** ** Further properties: the value [sampleCropAtPosition] picks *)

Lemma incr_keys_in (k : list ascii) (m : list (list ascii * Z)) :
  k ∈ map fst m -> map fst (incr k m) = map fst m.
Proof.
  induction m as [|[a n] r IH]; cbn [map fst incr]; intros Hk; [inversion Hk|].
  destruct (decide (a = k)) as [->|Hne].
  - rewrite bool_decide_eq_true_2 by reflexivity. reflexivity.
  - rewrite bool_decide_eq_false_2 by exact Hne. cbn [map fst].
    apply elem_of_cons in Hk as [->|Hk]; [congruence|]. rewrite IH by exact Hk. reflexivity.
Qed.

Lemma incr_keys_notin (k : list ascii) (m : list (list ascii * Z)) :
  k ∉ map fst m -> map fst (incr k m) = map fst m ++ [k].
Proof.
  induction m as [|[a n] r IH]; cbn [map fst incr]; intros Hk; [reflexivity|].
  rewrite elem_of_cons in Hk.
  rewrite bool_decide_eq_false_2 by (intros ->; tauto). cbn [map fst].
  rewrite IH by tauto. reflexivity.
Qed.

Lemma incr_entry (k k' : list ascii) (n' : Z) (m : list (list ascii * Z)) :
  NoDup (map fst m) -> (k', n') ∈ incr k m ->
  (k' <> k /\ (k', n') ∈ m) \/
  (k' = k /\ ((k, n' - 1) ∈ m \/ (n' = 1 /\ k ∉ map fst m))).
Proof.
  induction m as [|[a n] r IH]; cbn [incr]; intros Hnd Hin.
  - apply list_elem_of_singleton in Hin. injection Hin as -> ->.
    right. split; [reflexivity|]. right. split; [reflexivity|]. apply not_elem_of_nil.
  - cbn [map fst] in Hnd. apply NoDup_cons in Hnd as [Ha Hnd].
    destruct (decide (a = k)) as [->|Hne].
    + rewrite bool_decide_eq_true_2 in Hin by reflexivity.
      apply elem_of_cons in Hin as [Hq|Hq].
      * injection Hq as -> ->. right. split; [reflexivity|]. left.
        replace (n + 1 - 1) with n by lia. left.
      * assert (Hk' : k' <> k).
        { intros ->. apply Ha. apply list_elem_of_In, in_map_iff.
          exists (k, n'). split; [reflexivity|]. apply list_elem_of_In. exact Hq. }
        left. split; [exact Hk'|]. right. exact Hq.
    + rewrite bool_decide_eq_false_2 in Hin by exact Hne.
      apply elem_of_cons in Hin as [Hq|Hq].
      * injection Hq as -> ->. left. split; [exact Hne|]. left.
      * destruct (IH Hnd Hq) as [[H1 H2]|[H1 [H2|[H2 H3]]]].
        -- left. split; [exact H1|]. right. exact H2.
        -- right. split; [exact H1|]. left. right. exact H2.
        -- right. split; [exact H1|]. right. split; [exact H2|].
           cbn [map fst]. rewrite elem_of_cons. intros [Hq'|Hq']; [congruence|tauto].
Qed.

Lemma incr_has_key (k : list ascii) (m : list (list ascii * Z)) :
  k ∈ map fst (incr k m).
Proof.
  destruct (decide (k ∈ map fst m)) as [H|H].
  - rewrite incr_keys_in by exact H. exact H.
  - rewrite incr_keys_notin by exact H. apply elem_of_app. right. left.
Qed.

Lemma incr_keeps_key (k j : list ascii) (m : list (list ascii * Z)) :
  j ∈ map fst m -> j ∈ map fst (incr k m).
Proof.
  intros Hj. destruct (decide (k ∈ map fst m)) as [H|H].
  - rewrite incr_keys_in by exact H. exact Hj.
  - rewrite incr_keys_notin by exact H. apply elem_of_app. left. exact Hj.
Qed.

Lemma crop_freq_snoc (k : list ascii) (ls : list (list ascii)) (l : list ascii) :
  crop_freq k (ls ++ [l]) =
  (crop_freq k ls + if decide (line_crop l = Some k) then 1 else 0)%nat.
Proof.
  unfold crop_freq. rewrite filter_app, length_app. f_equal.
  rewrite filter_cons. destruct (decide (line_crop l = Some k)); reflexivity.
Qed.

Lemma crop_freq_pos (k : list ascii) (ls : list (list ascii)) :
  (0 < crop_freq k ls)%nat -> exists l, l ∈ ls /\ line_crop l = Some k.
Proof.
  unfold crop_freq. intros H.
  destruct (filter (fun l => line_crop l = Some k) ls) as [|l t] eqn:E; [cbn in H; lia|].
  exists l.
  assert (Hl : l ∈ filter (fun l => line_crop l = Some k) ls) by (rewrite E; left).
  apply list_elem_of_filter in Hl as [H1 H2]. split; assumption.
Qed.

Lemma line_crop_valid (l k : list ascii) :
  line_crop l = Some k -> isValidCropFormat k = true.
Proof.
  unfold line_crop. destruct (find_crop l) as [v|]; [|discriminate].
  destruct (isValidCropFormat v) eqn:E; [|discriminate]. intros [= <-]. exact E.
Qed.

Lemma counts_inv_step (ls : list (list ascii)) (l : list ascii) (m : list (list ascii * Z)) :
  counts_inv ls m ->
  counts_inv (ls ++ [l]) (match line_crop l with Some v => incr v m | None => m end).
Proof.
  intros (Hnd & He & Hk).
  destruct (line_crop l) as [v|] eqn:El.
  - split; [|split].
    + destruct (decide (v ∈ map fst m)) as [H|H].
      * rewrite incr_keys_in by exact H. exact Hnd.
      * rewrite incr_keys_notin by exact H. apply NoDup_app. split; [exact Hnd|].
        split; [|apply NoDup_singleton].
        intros x Hx Hx'. apply list_elem_of_singleton in Hx'. subst x. tauto.
    + intros k n Hin. rewrite crop_freq_snoc, El.
      destruct (incr_entry v k n m Hnd Hin) as [[H1 H2]|[H1 [H2|[H2 H3]]]].
      * destruct (decide (Some v = Some k)) as [Hq|_]; [congruence|].
        destruct (He _ _ H2) as [H3 H4]. lia.
      * subst k. destruct (decide (Some v = Some v)) as [_|Hq]; [|congruence].
        destruct (He _ _ H2) as [H3 H4]. lia.
      * subst k n. destruct (decide (Some v = Some v)) as [_|Hq]; [|congruence].
        destruct (crop_freq v ls) eqn:Ef; [lia|].
        exfalso. apply H3. apply Hk. rewrite Ef. lia.
    + intros k Hpos. rewrite crop_freq_snoc, El in Hpos.
      destruct (decide (Some v = Some k)) as [Hq|Hq].
      * injection Hq as ->. apply incr_has_key.
      * apply incr_keeps_key. apply Hk. lia.
  - split; [exact Hnd|]. split.
    + intros k n Hin. rewrite crop_freq_snoc, El.
      destruct (decide (None = Some k)); [discriminate|].
      destruct (He _ _ Hin) as [H3 H4]. lia.
    + intros k Hpos. rewrite crop_freq_snoc, El in Hpos.
      destruct (decide (None = Some k)); [discriminate|]. apply Hk. lia.
Qed.

Lemma crop_counts_inv (lines : list (list ascii)) : counts_inv lines (crop_counts lines).
Proof.
  induction lines as [|l ls IH] using rev_ind.
  - split; [constructor|]. split.
    + intros k n Hin. inversion Hin.
    + intros k H. unfold crop_freq in H. cbn in H. lia.
  - unfold crop_counts. rewrite foldl_app. cbn [foldl].
    apply counts_inv_step. exact IH.
Qed.

Lemma best_fold (entries : list (list ascii * Z)) (b : list ascii * Z) :
  let r := foldl (fun (best : list ascii * Z) (e : list ascii * Z) =>
                    if snd best <? snd e then e else best) b entries in
  (r = b \/ r ∈ entries) /\ snd b <= snd r /\ Forall (fun e => snd e <= snd r) entries.
Proof.
  revert b. induction entries as [|e t IH]; intros b r; subst r; cbn [foldl].
  - split; [left; reflexivity|]. split; [lia|constructor].
  - destruct (IH (if snd b <? snd e then e else b)) as (H1 & H2 & H3).
    set (r := foldl _ _ t) in *.
    destruct (Z.ltb_spec (snd b) (snd e)) as [Hlt|Hge].
    + split; [|split; [lia|constructor; [lia|exact H3]]].
      destruct H1 as [->|H1]; right; [left|right; exact H1].
    + split; [|split; [lia|constructor; [lia|exact H3]]].
      destruct H1 as [->|H1]; [left; reflexivity|right; right; exact H1].
Qed.

Lemma sample_crop_spec
    (range : list (list ascii * Z) -> list (list ascii * Z)) (stderr : list ascii) :
  (forall m, range m ≡ₚ m) ->
  let lines := scan_lines stderr in
  let r := sampleCropAtPosition range stderr in
  (r = [] <-> Forall (fun l => line_crop l = None) lines) /\
  (r <> [] -> isValidCropFormat r = true /\
              forall k, (crop_freq k lines <= crop_freq r lines)%nat).
Proof.
  intros Hrange lines r. subst r. unfold sampleCropAtPosition. fold lines.
  destruct (crop_counts_inv lines) as (Hnd & He & Hk).
  destruct (crop_counts lines) as [|e0 m0] eqn:Em.
  - split; [|intros H; congruence]. split; [intros _|reflexivity].
    apply Forall_forall. intros l Hl.
    destruct (line_crop l) as [k|] eqn:El; [|reflexivity]. exfalso.
    assert (Hp : (0 < crop_freq k lines)%nat).
    { unfold crop_freq. destruct (filter (fun l => line_crop l = Some k) lines) eqn:Ef.
      - assert (Hf : l ∈ filter (fun l => line_crop l = Some k) lines)
          by (apply list_elem_of_filter; split; assumption).
        rewrite Ef in Hf. inversion Hf.
      - cbn. lia. }
    pose proof (Hk k Hp) as Hin. inversion Hin.
  - set (m := e0 :: m0) in *.
    destruct (best_fold (range m) ([], 0)) as (H1 & _ & H3).
    set (b := foldl _ ([], 0) (range m)) in *.
    assert (Hb : b ∈ m).
    { destruct H1 as [H1|H1]; [|rewrite <- (Hrange m); exact H1].
      exfalso. assert (He0 : e0 ∈ range m) by (rewrite (Hrange m); left).
      rewrite Forall_forall in H3. pose proof (H3 e0 He0) as Hle.
      destruct e0 as [k0 n0]. destruct (He k0 n0 ltac:(left)) as [_ Hn0].
      rewrite H1 in Hle. cbn in Hle. lia. }
    unfold best_crop. fold b. destruct b as [c n]. cbn [fst].
    destruct (He c n Hb) as [Hn Hn1].
    destruct (crop_freq_pos c lines ltac:(lia)) as (l & Hl & Hlc).
    pose proof (line_crop_valid _ _ Hlc) as Hv.
    assert (Hc : c <> []) by (intros ->; rewrite valid_crop_nonempty in Hv; discriminate).
    split.
    + split; [intros H; congruence|]. intros Hall.
      rewrite Forall_forall in Hall. rewrite (Hall l Hl) in Hlc. discriminate.
    + intros _. split; [exact Hv|]. intros k.
      destruct (crop_freq k lines) eqn:Ek; [lia|].
      assert (Hkm : k ∈ map fst m) by (apply Hk; rewrite Ek; lia).
      apply list_elem_of_In, in_map_iff in Hkm as ([k' nk] & Hk' & Hkin).
      cbn in Hk'. subst k'. apply list_elem_of_In in Hkin.
      destruct (He k nk Hkin) as [Hnk _].
      assert (Hkr : (k, nk) ∈ range m) by (rewrite (Hrange m); exact Hkin).
      rewrite Forall_forall in H3. pose proof (H3 _ Hkr) as Hle. cbn in Hle.
      rewrite Ek in Hnk. lia.
Qed.



(** ** Further properties: progress carried from one run to the next *)















(** ** Further properties: the count map [DetectCrop] builds *)

Lemma incr_sum (k : list ascii) (m : list (list ascii * Z)) :
  zsum (map snd (incr k m)) = zsum (map snd m) + 1.
Proof.
  induction m as [|[a n] r IH]; [reflexivity|]. cbn [incr].
  destruct (bool_decide (a = k)); unfold zsum in *; cbn [map foldr snd] in *; lia.
Qed.

Lemma count_snoc (k : list ascii) (ss : list (list ascii)) (x : list ascii) :
  length (filter (fun s => s = k) (ss ++ [x])) =
  (length (filter (fun s => s = k) ss) + if decide (x = k) then 1 else 0)%nat.
Proof.
  rewrite filter_app, length_app. f_equal.
  rewrite filter_cons. destruct (decide (x = k)); reflexivity.
Qed.

Lemma samples_inv_step (ss : list (list ascii)) (x : list ascii) (m : list (list ascii * Z)) :
  samples_inv ss m ->
  samples_inv (ss ++ [x]) (if bool_decide (x = []) then m else incr x m).
Proof.
  intros (Hnd & He & Hk & Hs).
  assert (Hne : length (filter (fun s => s <> []) (ss ++ [x])) =
                (length (filter (fun s => s <> []) ss) + if decide (x <> []) then 1 else 0)%nat).
  { rewrite filter_app, length_app. f_equal. rewrite filter_cons.
    destruct (decide (x <> [])); reflexivity. }
  destruct (bool_decide_reflect (x = [])) as [Hx|Hx].
  - subst x. split; [exact Hnd|]. split; [|split].
    + intros k n Hin. destruct (He k n Hin) as (H1 & H2 & H3).
      rewrite count_snoc. destruct (decide ([] = k)); [congruence|].
      split; [exact H1|lia].
    + intros k Hk0 Hpos. rewrite count_snoc in Hpos.
      destruct (decide ([] = k)); [congruence|]. apply Hk; [exact Hk0|lia].
    + rewrite Hne. destruct (decide ([] <> @nil ascii)); [congruence|]. lia.
  - split; [|split; [|split]].
    + destruct (decide (x ∈ map fst m)) as [H|H].
      * rewrite incr_keys_in by exact H. exact Hnd.
      * rewrite incr_keys_notin by exact H. apply NoDup_app. split; [exact Hnd|].
        split; [|apply NoDup_singleton].
        intros y Hy Hy'. apply list_elem_of_singleton in Hy'. subst y. tauto.
    + intros k n Hin. rewrite count_snoc.
      destruct (incr_entry x k n m Hnd Hin) as [[H1 H2]|[H1 [H2|[H2 H3]]]].
      * destruct (decide (x = k)) as [Hq|_]; [congruence|].
        destruct (He _ _ H2) as (H3 & H4 & H5). split; [assumption|lia].
      * subst k. destruct (decide (x = x)) as [_|Hq]; [|congruence].
        destruct (He _ _ H2) as (H3 & H4 & H5). split; [assumption|lia].
      * subst k n. destruct (decide (x = x)) as [_|Hq]; [|congruence].
        destruct (length (filter (fun s => s = x) ss)) eqn:Ef.
        -- split; [exact Hx|lia].
        -- exfalso. apply H3. apply Hk; [exact Hx|]. rewrite Ef. lia.
    + intros k Hk0 Hpos. rewrite count_snoc in Hpos.
      destruct (decide (x = k)) as [Hq|Hq].
      * subst k. apply incr_has_key.
      * apply incr_keeps_key. apply Hk; [exact Hk0|lia].
    + rewrite incr_sum, Hs, Hne. destruct (decide (x <> [])); [lia|tauto].
Qed.

Lemma collect_samples_inv (samples : list (list ascii)) :
  samples_inv samples (collect_samples samples).
Proof.
  induction samples as [|x ss IH] using rev_ind.
  - split; [constructor|]. split; [intros k n Hin; inversion Hin|].
    split; [intros k _ H; cbn in H; lia | reflexivity].
  - unfold collect_samples. rewrite foldl_app. cbn [foldl].
    apply samples_inv_step. exact IH.
Qed.

(** X: the map [DetectCrop] fills from its sample results has one entry per
    distinct non-empty result, whose count is the number of samples that
    returned it; the counts are positive and add up to the number of
    samples that returned a crop (so at most the 141 samples taken). *)
Theorem collect_samples_counts (samples : list (list ascii)) :
  let m := collect_samples samples in
  NoDup (map fst m) /\
  (forall k n, (k, n) ∈ m ->
     k <> [] /\ 1 <= n /\ n = Z.of_nat (length (filter (fun s => s = k) samples))) /\
  (forall k, k ∈ samples -> k <> [] -> k ∈ map fst m) /\
  total_samples m = Z.of_nat (length (filter (fun s => s <> []) samples)).
Proof.
  intros m. destruct (collect_samples_inv samples) as (Hnd & He & Hk & Hs).
  split; [exact Hnd|]. split; [exact He|]. split.
  - intros k Hin Hk0. apply Hk; [exact Hk0|].
    destruct (filter (fun s => s = k) samples) eqn:Ef; [|cbn; lia].
    exfalso. assert (Hf : k ∈ filter (fun s => s = k) samples)
      by (apply list_elem_of_filter; split; [reflexivity|exact Hin]).
    rewrite Ef in Hf. inversion Hf.
  - rewrite total_samples_zsum. exact Hs.
Qed.

(** ** Further properties: when [LoadScenes] fails *)



(** ** Further properties: [GetResume] over concatenated logs *)

Lemma split_by_nonempty (p : ascii -> bool) (s : list ascii) : split_by p s <> [].
Proof.
  destruct s as [|a s]; cbn; [discriminate|].
  destruct (p a); [discriminate|]. destruct (split_by p s); discriminate.
Qed.

Lemma drop_last_app (a b : list (list ascii)) :
  b <> [] ->
  match rev (a ++ b) with [] :: r => rev r | _ => a ++ b end =
  a ++ match rev b with [] :: r => rev r | _ => b end.
Proof.
  intros Hb. rewrite rev_app_distr.
  destruct (rev b) as [|x r] eqn:E.
  - exfalso. apply Hb. apply (f_equal (@rev (list ascii))) in E.
    rewrite rev_involutive in E. exact E.
  - destruct x as [|c w]; cbn [app].
    + rewrite rev_app_distr, rev_involutive. reflexivity.
    + reflexivity.
Qed.

(** X: [GetResume] of a log that is a newline-terminated (or empty) part
    followed by any further text gives the records of the first part
    followed by those of the rest: lines never merge across the newline,
    and malformed lines on either side are just skipped. *)
Theorem GetResume_concat (txt1 txt2 : list ascii) :
  line_terminated txt1 -> GetResume (txt1 ++ txt2) = GetResume txt1 ++ GetResume txt2.
Proof.
  intros [-> | (u & ->)]; [reflexivity|].
  unfold GetResume. rewrite scan_lines_terminated, <- omap_app. f_equal.
  rewrite <- app_assoc. cbn [app]. unfold scan_lines at 1.
  rewrite split_nl_app, drop_last_app by apply split_by_nonempty.
  rewrite map_app. reflexivity.
Qed.

Lemma GetResume_concat_witness :
  GetResume (bytes "1 10 5
bad
" ++ bytes "2 10 6") = GetResume (bytes "1 10 5
bad
") ++ GetResume (bytes "2 10 6").
Proof.
  apply GetResume_concat. right. exists (bytes "1 10 5
bad"). reflexivity.
Defined.


(** ** Further properties: the crop decision over sampled results *)

Lemma sample_result_valid (range : list (list ascii * Z) -> list (list ascii * Z))
    (run : option (list ascii)) :
  (forall m, range m ≡ₚ m) ->
  sample_result range run = [] \/ isValidCropFormat (sample_result range run) = true.
Proof.
  intros Hr. destruct run as [stderr|]; cbn [sample_result]; [|left; reflexivity].
  destruct (sample_crop_spec range stderr Hr) as [_ H].
  destruct (decide (sampleCropAtPosition range stderr = [])) as [E|E]; [left; exact E|].
  right. apply (H E).
Qed.

(** X: for sample results produced by [sampleCropAtPosition] (or [""]
    when ffmpeg could not be started), whatever the completion and map
    iteration orders, [DetectCrop] reports [Required] exactly when its
    [CropFilter] makes [GetOutputDimensions] differ from the source
    dimensions. *)
Theorem sampled_crop_required_iff_resizes
    (range : list (list ascii * Z) -> list (list ascii * Z))
    (runs : list (option (list ascii))) (cropCounts : list (list ascii * Z))
    (disableCrop : bool) (sw sh : N) :
  (forall m, range m ≡ₚ m) ->
  cropCounts ≡ₚ collect_samples (map (sample_result range) runs) ->
  let r := DetectCrop disableCrop cropCounts sw sh in
  Required r = true <-> GetOutputDimensions sw sh (CropFilter r) <> (sw, sh).
Proof.
  intros Hr Hc. apply detect_crop_dims.
  apply Forall_forall. intros [k n] Hin. rewrite Hc in Hin. cbn [fst].
  destruct (collect_samples_inv (map (sample_result range) runs)) as (_ & He & _).
  destruct (He k n Hin) as (Hk & Hn & Hcount).
  destruct (filter (fun s => s = k) (map (sample_result range) runs)) as [|s t] eqn:Ef;
    [cbn in Hcount; lia|].
  assert (Hs : s ∈ filter (fun s => s = k) (map (sample_result range) runs))
    by (rewrite Ef; left).
  apply list_elem_of_filter in Hs as [-> Hs].
  apply list_elem_of_In, in_map_iff in Hs as (run & Hrun & _).
  destruct (sample_result_valid range run Hr) as [H|H]; rewrite Hrun in H;
    [contradiction | exact H].
Qed.

Lemma sampled_crop_required_iff_resizes_witness :
  Required (DetectCrop false (collect_samples (map (sample_result (fun m => m))
      [Some (bytes "crop=1920:800:0:140
"); None])) 1920 1080) = true <->
  GetOutputDimensions 1920 1080 (CropFilter (DetectCrop false
    (collect_samples (map (sample_result (fun m => m))
      [Some (bytes "crop=1920:800:0:140
"); None])) 1920 1080)) <> (1920%N, 1080%N).
Proof.
  apply (sampled_crop_required_iff_resizes (fun m => m)
           [Some (bytes "crop=1920:800:0:140
"); None]).
  - intros m. reflexivity.
  - reflexivity.
Defined.
